(** * zotero_parser.py: field extraction from a Zotero collection report

    A shallow embedding of [src/zotero_parser.py] and the properties its
    specification states about it.

    Python strings are sequences of Unicode code points; they are modelled
    as lists of code points ([N]).  The dictionary built by [parse_article]
    is a finite map from its (string) keys to such values. *)

From stdpp Require Import gmap strings list.
From Stdlib Require Import NArith.

Open Scope N_scope.

(** ** Python strings *)

Module Py.

(** A character is a code point, a string a list of them. *)
Abbreviation char := N (only parsing).
Abbreviation str := (list N) (only parsing).

(** A Python string literal (ASCII) as a list of code points. *)
Definition lit (s : string) : str :=
  Ascii.N_of_ascii <$> String.list_ascii_of_string s.

(** [str.isspace] on one code point: the characters of bidirectional type
    WS, B or S and of category Zs, as CPython's [_PyUnicode_IsWhitespace]
    lists them. *)
Definition isspace (c : char) : bool :=
  (9 <=? c) && (c <=? 13) || (28 <=? c) && (c <=? 32)
  || (c =? 133) || (c =? 160) || (c =? 5760)
  || (8192 <=? c) && (c <=? 8202)
  || (c =? 8232) || (c =? 8233) || (c =? 8239) || (c =? 8287) || (c =? 12288).

Definition SP : char := 32.
Definition LF : char := 10.
Definition CR : char := 13.

(** Truthiness of a string: [if s:] holds for non-empty strings. *)
Definition truthy (s : str) : bool :=
  match s with [] => false | _ :: _ => true end.

(** [s.replace(a, b)] for one-character [a] and [b]. *)
Definition replace (a b : char) (s : str) : str :=
  (fun c => if c =? a then b else c) <$> s.

(** [s.lstrip()]. *)
Fixpoint lstrip (s : str) : str :=
  match s with
  | [] => []
  | c :: s' => if isspace c then lstrip s' else s
  end.

(** [s.rstrip()]: a character is dropped when it is whitespace and
    nothing but whitespace follows it. *)
Fixpoint rstrip (s : str) : str :=
  match s with
  | [] => []
  | c :: s' =>
      match rstrip s' with
      | [] => if isspace c then [] else [c]
      | r => c :: r
      end
  end.

(** [s.strip()]. *)
Definition strip (s : str) : str := lstrip (rstrip s).

(** [s.split()] without arguments: one left-to-right scan; [cur] is the
    token being read (empty between tokens).  A whitespace character ends
    the current token, any other character extends it. *)
Fixpoint split_go (cur : str) (s : str) : list str :=
  match s with
  | [] => if truthy cur then [cur] else []
  | c :: s' =>
      if isspace c
      then (if truthy cur then cur :: split_go [] s' else split_go [] s')
      else split_go (cur ++ [c]) s'
  end.

Definition split (s : str) : list str := split_go [] s.

(** [sep.join(parts)]. *)
Fixpoint join (sep : str) (parts : list str) : str :=
  match parts with
  | [] => []
  | [p] => p
  | p :: ps => p ++ sep ++ join sep ps
  end.

(** [l[-1]] on a non-empty list ([None] stands for Python's IndexError). *)
Definition last_item {A} (l : list A) : option A := last l.

End Py.

Import Py.

(** ** [clean_text] *)

(** [clean_text(text)], lines 53-64. *)
Definition clean_text (text : str) : str :=
  if negb (truthy text) then []
  else
    let cleaned := replace CR SP (replace LF SP text) in
    let cleaned := join [SP] (split cleaned) in
    cleaned.

(** ** Character classes of the [re] module

    For [str] patterns [re] classifies characters with the interpreter's
    Unicode database: [\d] is [str.isdecimal] and a word character is
    [str.isalnum] or the underscore.  Below 128 both classes are written
    out; above, they are the two tables of the database the interpreter
    was built with, which is not part of this repository. *)

Class UnicodeDb := {
  db_isalnum : char -> bool;
  db_isdecimal : char -> bool
}.

Module Re.
Section WithDb.
Context `{UnicodeDb}.

Definition isdecimal (c : char) : bool :=
  if c <? 128 then (48 <=? c) && (c <=? 57) else db_isdecimal c.

Definition isalnum (c : char) : bool :=
  if c <? 128
  then (48 <=? c) && (c <=? 57) || (65 <=? c) && (c <=? 90)
       || (97 <=? c) && (c <=? 122)
  else db_isalnum c.

Definition isword (c : char) : bool := isalnum c || (c =? 95).

(** The constructs of the pattern language used by the program. *)
Inductive regex :=
| Lit (c : char)
| Digit
| Boundary
| Seq (r1 r2 : regex)
| Alt (r1 r2 : regex)
| Group (r : regex)
| Repeat (n : nat) (r : regex).

Definition word_at (o : option char) : bool :=
  match o with Some c => isword c | None => false end.

(** [\b]: exactly one of the characters around the position is a word
    character; outside the string counts as a non-word character. *)
Definition at_boundary (prev : option char) (s : str) : bool :=
  xorb (word_at prev) (word_at (head s)).

(** Backtracking matcher: [prev] is the character before the current
    position, [s] the text from it on, [k] the rest of the pattern.  The
    answer is the text left after the whole match. *)
Fixpoint match_here (r : regex) (prev : option char) (s : str)
    (k : option char -> str -> option str) : option str :=
  match r with
  | Lit c =>
      match s with
      | d :: s' => if d =? c then k (Some d) s' else None
      | [] => None
      end
  | Digit =>
      match s with
      | d :: s' => if isdecimal d then k (Some d) s' else None
      | [] => None
      end
  | Boundary => if at_boundary prev s then k prev s else None
  | Seq r1 r2 =>
      match_here r1 prev s (fun prev' s' => match_here r2 prev' s' k)
  | Alt r1 r2 =>
      match match_here r1 prev s k with
      | Some rest => Some rest
      | None => match_here r2 prev s k
      end
  | Group r1 => match_here r1 prev s k
  | Repeat n r1 =>
      (fix rep (n : nat) (prev : option char) (s : str) : option str :=
         match n with
         | O => k prev s
         | S n' => match_here r1 prev s (rep n')
         end) n prev s
  end.

(** A match object: where the match starts and the text it covers
    ([m.group()]). *)
Record match_obj := { start : nat; group : str }.

(** [re.search]: the match at the leftmost position that has one. *)
Fixpoint search_from (r : regex) (prev : option char) (s : str)
    : option match_obj :=
  match match_here r prev s (fun _ rest => Some rest) with
  | Some rest => Some {| start := 0; group := take (length s - length rest) s |}
  | None =>
      match s with
      | [] => None
      | c :: s' =>
          (fun m => {| start := S (start m); group := group m |})
            <$> search_from r (Some c) s'
      end
  end.

Definition search (r : regex) (s : str) : option match_obj :=
  search_from r None s.

End WithDb.
End Re.

(** ** Year, surname and author formatting *)

Section Fields.
Context `{UnicodeDb}.

(** The pattern [\b(19|20)\d{2}\b] of line 46. *)
Definition year_pattern : Re.regex :=
  Re.Seq Re.Boundary
    (Re.Seq (Re.Group (Re.Alt (Re.Seq (Re.Lit 49) (Re.Lit 57))
                              (Re.Seq (Re.Lit 50) (Re.Lit 48))))
       (Re.Seq (Re.Repeat 2 Re.Digit) Re.Boundary)).

(** [extract_year_from_date(date_text)], lines 40-50. *)
Definition extract_year_from_date (date_text : str) : str :=
  if negb (truthy date_text) then []
  else
    match Re.search year_pattern date_text with
    | Some year_match => Re.group year_match
    | None => []
    end.

End Fields.

(** [extract_last_name(full_name)], lines 15-20. *)
Definition extract_last_name (full_name : str) : str :=
  let parts := split (strip full_name) in
  match last_item parts with
  | Some surname => surname
  | None => full_name
  end.

(** [format_authors(author_list)], lines 23-37.  The indexed reads
    [last_names[0]] and [last_names[1]] are guarded by the length tests. *)
Definition format_authors (author_list : list str) : str :=
  match author_list with
  | [] => []
  | _ :: _ =>
      let last_names :=
        extract_last_name <$> List.filter (fun author => truthy (strip author)) author_list in
      if (length last_names =? 1)%nat then last_names !!! 0%nat
      else if (length last_names =? 2)%nat
      then (last_names !!! 0%nat) ++ lit " and " ++ (last_names !!! 1%nat)
      else if (2 <? length last_names)%nat
      then (last_names !!! 0%nat) ++ lit " et al"
      else []
  end.

(** ** The markup tree

    The program reads the document through four operations of the
    BeautifulSoup tree.  They are an interface here: every statement about
    [parse_article] below holds for any tree that offers them. *)

Class Soup (node : Type) := {
  (** [n.find(name)]: the first descendant with this tag name. *)
  find : node -> str -> option node;
  (** [n.find_all(name, class_=cls)]: all such descendants, in document
      order ([None]: no class filter). *)
  find_all : node -> str -> option str -> list node;
  (** [n.find_next_sibling(name)]. *)
  find_next_sibling : node -> str -> option node;
  (** [n.get_text(strip=True)]. *)
  get_text : node -> str
}.

(** ** [parse_article] *)

Section Extractor.
Context `{UnicodeDb} `{Soup node}.

(** The group of labels that feed the journal field (line 115). *)
Definition journal_labels : list str :=
  [lit "Publication"; lit "Proceedings Title"; lit "Publisher"].

(** Lines 70-76: the record, with all five keys present from the start. *)
Definition empty_article : gmap string str :=
  <["abstract" := []]> (<["journal" := []]> (<["year" := []]>
    (<["author(s)" := []]> (<["title" := []]> ∅)))).

(** Lines 91-96, the body of the loop over the author header cells. *)
Definition collect_author (authors : list str) (author_th : node) : list str :=
  match find_next_sibling author_th (lit "td") with
  | Some author_td =>
      let author_name := clean_text (get_text author_td) in
      if truthy author_name then authors ++ [author_name] else authors
  | None => authors
  end.

(** Lines 112-120: what a row with label [field_name] and cleaned value
    [field_value] does to the record.  The read [article_data['journal']]
    finds its key, which line 74 put there. *)
Definition store_field (article_data : gmap string str)
    (field_name field_value : str) : gmap string str :=
  if bool_decide (field_name = lit "Date")
  then <["year" := extract_year_from_date field_value]> article_data
  else if bool_decide (field_name ∈ journal_labels)
  then
    if negb (truthy (article_data !!! "journal"))
    then <["journal" := field_value]> article_data
    else article_data
  else if bool_decide (field_name = lit "Abstract")
  then <["abstract" := field_value]> article_data
  else article_data.

(** Lines 103-120, the body of the loop over the rows: a row without a
    header cell or without a value cell is passed over. *)
Definition scan_row (article_data : gmap string str) (row : node)
    : gmap string str :=
  match find row (lit "th"), find row (lit "td") with
  | Some th, Some td =>
      let field_name := get_text th in
      let field_value := clean_text (get_text td) in
      store_field article_data field_name field_value
  | _, _ => article_data
  end.

(** [parse_article(article_li)], lines 67-122. *)
Definition parse_article (article_li : node) : gmap string str :=
  let article_data := empty_article in
  let article_data :=
    match find article_li (lit "h2") with
    | Some title_element =>
        <["title" := clean_text (get_text title_element)]> article_data
    | None => article_data
    end in
  match find article_li (lit "table") with
  | None => article_data
  | Some table =>
      let author_elements := find_all table (lit "th") (Some (lit "author")) in
      let authors := fold_left collect_author author_elements [] in
      let article_data := <["author(s)" := format_authors authors]> article_data in
      let rows := find_all table (lit "tr") None in
      fold_left scan_row rows article_data
  end.

End Extractor.

(** ** [parse_zotero_html_report] *)

(** An exception with its message. *)
Inductive exn := Exception (msg : str).

(** The outcome of a call that may raise. *)
Inductive result (A : Type) :=
| Return (a : A)
| Raise (e : exn).
Arguments Return {A} a.
Arguments Raise {A} e.

(** The lines the loop prints: lines 145, 155, 157 and 159.  The article
    number is the one printed, [i+1]. *)
Inductive message :=
| Found (count : nat)
| Parsed (title60 : str)
| Skipped (number : nat)
| ErrorParsing (number : nat) (e : exn).

Section Report.
Context `{UnicodeDb} `{Soup node}.

(** The loop of lines 149-159 for an extractor that may raise; the state
    is the list [parsed_articles] and what was printed so far. *)
Section Loop.
Variable extract : node -> result (gmap string str).

(** One iteration: the [try] block and its [except] clause. *)
Definition parse_step (i : nat) (article_li : node)
    (st : list (gmap string str) * list message)
    : list (gmap string str) * list message :=
  let '(parsed_articles, out) := st in
  match extract article_li with
  | Return article_data =>
      if truthy (article_data !!! "title")
      then (parsed_articles ++ [article_data],
            out ++ [Parsed (take 60 (article_data !!! "title"))])
      else (parsed_articles, out ++ [Skipped (i + 1)%nat])
  | Raise e => (parsed_articles, out ++ [ErrorParsing (i + 1)%nat e])
  end.

(** [for i, article_li in enumerate(article_items)], from index [i] on. *)
Fixpoint parse_loop (i : nat) (article_items : list node)
    (st : list (gmap string str) * list message)
    : list (gmap string str) * list message :=
  match article_items with
  | [] => st
  | article_li :: rest => parse_loop (S i) rest (parse_step i article_li st)
  end.

(** Lines 145-161 on the list of entries found. *)
Definition parse_items (article_items : list node)
    : list (gmap string str) * list message :=
  parse_loop 0 article_items ([], [Found (length article_items)]).

End Loop.

(** [parse_zotero_html_report], from the parsed document [soup] on (lines
    144-161); reading the file and building the tree (lines 135-141) is
    the caller's part here.  The first component is the returned list, the
    second what was printed.  [parse_article] is a total function of this
    model, so the call never takes the [except] branch. *)
Definition parse_zotero_html_report (soup : node)
    : list (gmap string str) * list message :=
  parse_items (fun article_li => Return (parse_article article_li))
    (find_all soup (lit "li") (Some (lit "item"))).

End Report.

(** ** A concrete tree

    A small document tree that offers the four operations, to run the
    extractor on actual documents. *)

Module Html.

#[local] Set Warnings "-register-all".

Inductive tree :=
| Text (s : str)
| Elem (name : str) (classes : list str) (children : list tree).

(** A place in the document: a tree and the siblings that follow it. *)
Definition node : Type := tree * list tree.

Fixpoint with_followers (l : list tree) : list node :=
  match l with
  | [] => []
  | t :: r => (t, r) :: with_followers r
  end.

(** All places below a tree, in document order. *)
Fixpoint descendants (t : tree) : list node :=
  match t with
  | Text _ => []
  | Elem _ _ children =>
      (fix below (l : list tree) : list node :=
         match l with
         | [] => []
         | c :: r => (c, r) :: descendants c ++ below r
         end) children
  end.

(** The text fragments below a tree, in document order. *)
Fixpoint strings (t : tree) : list str :=
  match t with
  | Text s => [s]
  | Elem _ _ children =>
      (fix below (l : list tree) : list str :=
         match l with
         | [] => []
         | c :: r => strings c ++ below r
         end) children
  end.

Definition is_tag (name : str) (cls : option str) (n : node) : bool :=
  match n.1 with
  | Text _ => false
  | Elem name' classes _ =>
      bool_decide (name' = name)
      && match cls with
         | None => true
         | Some c => bool_decide (c ∈ classes)
         end
  end.

Definition tree_find_all (n : node) (name : str) (cls : option str) : list node :=
  List.filter (is_tag name cls) (descendants n.1).

Definition tree_find (n : node) (name : str) : option node :=
  head (tree_find_all n name None).

Definition tree_find_next_sibling (n : node) (name : str) : option node :=
  head (List.filter (is_tag name None) (with_followers n.2)).

(** [get_text(strip=True)]: every fragment stripped, the empty ones
    dropped, the rest concatenated. *)
Definition tree_get_text (n : node) : str :=
  concat (List.filter truthy (strip <$> strings n.1)).

Definition soup : Soup node :=
  {| find := tree_find;
     find_all := tree_find_all;
     find_next_sibling := tree_find_next_sibling;
     get_text := tree_get_text |}.

(** The root of a document. *)
Definition document (children : list tree) : node :=
  (Elem (lit "[document]") [] children, []).

(** A table row with a header cell and a value cell. *)
Definition field (label value : str) : tree :=
  Elem (lit "tr") []
    [Elem (lit "th") [] [Text label]; Elem (lit "td") [] [Text value]].

(** A table row for an author. *)
Definition author (name : str) : tree :=
  Elem (lit "tr") []
    [Elem (lit "th") [lit "author"] [Text (lit "Author")];
     Elem (lit "td") [] [Text name]].

(** An entry of the report: an optional heading and a table of rows. *)
Definition item (heading : option str) (rows : list tree) : tree :=
  Elem (lit "li") [lit "item"]
    (match heading with
     | Some h => [Elem (lit "h2") [] [Text h]]
     | None => []
     end ++ [Elem (lit "table") [] rows]).

End Html.

(** A database in which no character above 127 is a letter or a digit;
    it serves to run the program on ASCII documents. *)
Definition ascii_db : UnicodeDb :=
  {| db_isalnum := fun _ => false; db_isdecimal := fun _ => false |}.

(** ** Notions the specification uses *)

(** *** Text cleaning, as the specification describes it *)

(** Each CR and LF becomes a space. *)
Definition breaks_to_spaces (s : str) : str :=
  (fun c => if bool_decide (c = CR \/ c = LF) then SP else c) <$> s.

(** Each run of whitespace becomes one space: a whitespace character
    followed by another one is dropped, the last of a run is replaced. *)
Fixpoint collapse_runs (s : str) : str :=
  match s with
  | [] => []
  | c :: s' =>
      if isspace c
      then match s' with
           | d :: _ => if isspace d then collapse_runs s' else SP :: collapse_runs s'
           | [] => [SP]
           end
      else c :: collapse_runs s'
  end.

(** Leading and trailing whitespace removed. *)
Definition trim (s : str) : str := lstrip (rstrip s).

(** No CR and no LF. *)
Definition no_line_break (s : str) : Prop := (CR ∉ s) /\ (LF ∉ s).

(** No two consecutive whitespace characters. *)
Definition no_double_space (s : str) : Prop :=
  forall (i : nat) c d,
    s !! i = Some c -> s !! S i = Some d -> ~ (isspace c = true /\ isspace d = true).

(** No whitespace at either end. *)
Definition no_outer_space (s : str) : Prop :=
  (forall c, head s = Some c -> isspace c = false)
  /\ (forall c, last s = Some c -> isspace c = false).

Definition tidy (s : str) : Prop :=
  no_line_break s /\ no_double_space s /\ no_outer_space s.

(** *** Author formatting, as the specification describes it *)

(** A blank entry: nothing but whitespace. *)
Definition blank (name : str) : bool := forallb isspace name.

(** The last whitespace-delimited token, or the name itself when it has
    no token. *)
Definition surname (name : str) : str :=
  match last (split name) with
  | Some token => token
  | None => name
  end.

Definition authors_summary (names : list str) : str :=
  match surname <$> List.filter (fun name => negb (blank name)) names with
  | [] => []
  | [s1] => s1
  | [s1; s2] => s1 ++ lit " and " ++ s2
  | s1 :: _ :: _ :: _ => s1 ++ lit " et al"
  end.

(** *** Years, as the specification describes them *)

Section YearSpec.
Context `{UnicodeDb}.

(** Four digits, the first two being 19 or 20. *)
Definition four_digit_year (y : str) : Prop :=
  exists d3 d4,
    (y = [49; 57; d3; d4] \/ y = [50; 48; d3; d4])
    /\ Re.isdecimal d3 = true /\ Re.isdecimal d4 = true.

(** [y] occurs in [s] after [pre] and before [post], with a word boundary
    on each side. *)
Definition year_at (s pre y post : str) : Prop :=
  s = pre ++ y ++ post
  /\ four_digit_year y
  /\ Re.at_boundary (last pre) (y ++ post) = true
  /\ Re.at_boundary (last y) post = true.

(** [y] is the first such occurrence in [s]. *)
Definition first_year (s y : str) : Prop :=
  exists pre post,
    year_at s pre y post
    /\ forall pre' y' post', year_at s pre' y' post' -> (length pre <= length pre')%nat.

Definition no_year (s : str) : Prop :=
  forall pre y post, ~ year_at s pre y post.

End YearSpec.

(** *** The field table of an entry *)

Section FieldTable.
Context `{Soup node}.

(** The label and cleaned value of a row; a row lacking either cell
    contributes nothing. *)
Definition field_row (row : node) : option (str * str) :=
  match find row (lit "th"), find row (lit "td") with
  | Some th, Some td => Some (get_text th, clean_text (get_text td))
  | _, _ => None
  end.

(** The rows of the entry's table, in row-scan order. *)
Definition field_table (article_li : node) : list (str * str) :=
  match find article_li (lit "table") with
  | Some table => omap field_row (find_all table (lit "tr") None)
  | None => []
  end.

(** The values of the rows carrying a given label, in row-scan order. *)
Definition values_of (label : str) (table : list (str * str)) : list str :=
  snd <$> List.filter (fun row => bool_decide (row.1 = label)) table.

(** The first non-empty value among the rows whose label is in [labels]. *)
Definition first_populated (labels : list str) (table : list (str * str))
    : option str :=
  snd <$> List.find (fun row => bool_decide (row.1 ∈ labels) && truthy (row.2)) table.

End FieldTable.

(** A token of [split]: non-empty and free of whitespace. *)
Definition token (t : str) : Prop :=
  t <> [] /\ Forall (fun c => isspace c = false) t.

(** *** The year pattern at one position *)

Section YearHere.
Context `{UnicodeDb}.

(** What matching [\b(19|20)\d{2}\b] at one position amounts to: the text
    left after the four characters, when they form a year between word
    boundaries. *)
Definition year_here (prev : option char) (s : str) : option str :=
  match s with
  | c1 :: c2 :: d3 :: d4 :: rest =>
      if Re.at_boundary prev s
         && ((c1 =? 49) && (c2 =? 57) || (c1 =? 50) && (c2 =? 48))
         && Re.isdecimal d3 && Re.isdecimal d4
         && Re.at_boundary (Some d4) rest
      then Some rest
      else None
  | _ => None
  end.

End YearHere.

(** *** What the report keeps of an entry *)

(** The record an extractor contributes for an entry: none when it
    raises, none when the title is empty. *)
Definition kept {node} (extract : node -> result (gmap string str))
    (article_li : node) : option (gmap string str) :=
  match extract article_li with
  | Return article_data =>
      if truthy (article_data !!! "title") then Some article_data else None
  | Raise _ => None
  end.

(** The five keys of a record. *)
Definition record_keys : gset string :=
  {[ "title"; "author(s)"; "year"; "journal"; "abstract" ]}.

(** ** Sample data *)

Module Sample.

(** A fragment of the Unicode database: the letters of Latin-1 and the
    Arabic-Indic digits. *)
Definition db : UnicodeDb :=
  {| db_isalnum := fun c =>
       (192 <=? c) && (c <=? 255) && negb (c =? 215) && negb (c =? 247)
       || (1632 <=? c) && (c <=? 1641);
     db_isdecimal := fun c => (1632 <=? c) && (c <=? 1641) |}.

Definition entry (heading : option str) (rows : list Html.tree) : Html.node :=
  (Html.item heading rows, []).

(** Proceedings Title = "X" before Publisher = "Y", and the reverse. *)
Definition entry_xy : Html.node :=
  entry (Some (lit "T"))
    [Html.field (lit "Proceedings Title") (lit "X");
     Html.field (lit "Publisher") (lit "Y")].

Definition entry_yx : Html.node :=
  entry (Some (lit "T"))
    [Html.field (lit "Publisher") (lit "Y");
     Html.field (lit "Proceedings Title") (lit "X")].

(** Two Date rows, the second without a year. *)
Definition entry_two_dates : Html.node :=
  entry (Some (lit "T"))
    [Html.field (lit "Date") (lit "2019-05");
     Html.field (lit "Date") (lit "n.d.")].

(** The two entries of the end-to-end scenario of the specification. *)
Definition study_a : Html.tree :=
  Html.item (Some (lit "Study A"))
    [Html.author (lit "Alice Smith");
     Html.author (lit "Bob Jones");
     Html.field (lit "Date") (lit "2019-05");
     Html.field (lit "Publication") (lit "Journal Q");
     Html.field (lit "Abstract") (lit "Summary text")].

Definition untitled : Html.tree :=
  Html.item None [Html.field (lit "Date") (lit "2020")].

Definition report : Html.node := Html.document [study_a; untitled].

(** An entry whose table is missing. *)
Definition broken : Html.tree :=
  Html.Elem (lit "li") [lit "item"] [Html.Elem (lit "h2") [] [Html.Text (lit "Study B")]].

(** An extractor that raises on an entry without a table. *)
Definition faulty (article_li : Html.node) : result (gmap string str) :=
  match Html.tree_find article_li (lit "table") with
  | Some _ => Return (@parse_article db Html.node Html.soup article_li)
  | None => Raise (Exception (lit "malformed table"))
  end.

(** The entries of a report in which [broken] stands between the two
    others, each with the siblings that follow it. *)
Definition first_item : Html.node := (study_a, [broken; untitled]).
Definition broken_item : Html.node := (broken, [untitled]).
Definition last_item : Html.node := (untitled, []).
Definition faulty_report : Html.node := Html.document [study_a; broken; untitled].

End Sample.

(** ** More notions for the properties below *)

(** Every whitespace character is the space U+0020. *)
Definition spaces_only (s : str) : Prop :=
  Forall (fun c => isspace c = true -> c = SP) s.

(** The first non-empty string of a list, or the empty string. *)
Fixpoint first_nonempty (l : list str) : str :=
  match l with
  | [] => []
  | s :: l' => if truthy s then s else first_nonempty l'
  end.

Section AuthorCells.
Context `{Soup node}.

(** The texts of the value cells that follow the author header cells of a
    table, in document order; a header cell without such a sibling gives
    none. *)
Definition author_texts (table : node) : list str :=
  omap (fun author_th => get_text <$> find_next_sibling author_th (lit "td"))
    (find_all table (lit "th") (Some (lit "author"))).

End AuthorCells.

(** The line the loop prints for the entry at index [i]. *)
Definition entry_line {node} (extract : node -> result (gmap string str))
    (i : nat) (article_li : node) : message :=
  match extract article_li with
  | Return article_data =>
      if truthy (article_data !!! "title")
      then Parsed (take 60 (article_data !!! "title"))
      else Skipped (i + 1)%nat
  | Raise e => ErrorParsing (i + 1)%nat e
  end.

(** ** [main] and its environment *)

(** An exception as [main] tells them apart: [FileNotFoundError], which
    the first [except] clause takes, and any other [Exception]. *)
Inductive error :=
| FileNotFoundError (e : exn)
| OtherException (e : exn).

(** The outcome of a step of the script. *)
Inductive outcome (A : Type) :=
| Value (a : A)
| Raised (err : error).
Arguments Value {A} a.
Arguments Raised {A} err.

(** What the script asks of its environment: the files and the two
    libraries that read and write them. *)
Class Platform (world node : Type) := {
  (** [open(path, 'r', encoding='utf-8')] followed by [file.read()],
      lines 138-139. *)
  read_file : world -> str -> outcome str;
  (** [BeautifulSoup(html_content, 'html.parser')], line 141. *)
  BeautifulSoup : str -> outcome node;
  (** [open(path, 'w', encoding='utf-8')] followed by
      [json.dump(articles, f, indent=2, ensure_ascii=False)], lines
      174-175: the files afterwards, and the exception if one was raised. *)
  dump_json : world -> str -> list (gmap string str) -> world * option error
}.

(** The lines the script prints. *)
Inductive line :=
| Processing (html_path : str)                       (* line 135 *)
| Report (m : message)                               (* lines 145-159 *)
| Successfully (count : nat)                         (* line 177 *)
| SavedTo (output_path : str)                        (* line 178 *)
| ParsedArticles                                     (* line 182 *)
| Listed (number : nat) (title : str) (dots : bool)  (* line 184 *)
| CouldNotFind (html_path : str)                     (* line 187 *)
| MakeSure                                           (* line 188 *)
| ErrorLine (e : exn).                               (* line 190 *)

Section Script.
Context `{UnicodeDb} `{Soup node} `{Platform world node}.

(** [parse_zotero_html_report(html_path)] as a whole, lines 125-161:
    the list returned or the exception raised, and what was printed. *)
Definition parse_zotero_html_report_file (html_path : str) (w : world)
    : outcome (list (gmap string str)) * list line :=
  let out := [Processing html_path] in
  match read_file w html_path with
  | Raised err => (Raised err, out)
  | Value html_content =>
      match BeautifulSoup html_content with
      | Raised err => (Raised err, out)
      | Value soup =>
          let '(parsed_articles, printed) := parse_zotero_html_report soup in
          (Value parsed_articles, out ++ (Report <$> printed))
      end
  end.

(** Line 184: the title in full, or its first 60 characters followed by
    three dots when it is longer than that. *)
Definition listing (i : nat) (article : gmap string str) : line :=
  if (60 <? length (article !!! "title"))%nat
  then Listed i (take 60 (article !!! "title")) true
  else Listed i (article !!! "title") false.

(** Lines 186-190: the two [except] clauses. *)
Definition report_error (html_path : str) (err : error) : list line :=
  match err with
  | FileNotFoundError _ => [CouldNotFind html_path; MakeSure]
  | OtherException e => [ErrorLine e]
  end.

(** [main()], lines 164-190: the files afterwards and what was printed. *)
Definition main (w : world) : world * list line :=
  let html_path := lit "Zotero Report.html" in
  let output_path := lit "zotero_literature.json" in
  match parse_zotero_html_report_file html_path w with
  | (Raised err, out) => (w, out ++ report_error html_path err)
  | (Value articles, out) =>
      match dump_json w output_path articles with
      | (w', Some err) => (w', out ++ report_error html_path err)
      | (w', None) =>
          let out := out ++ [Successfully (length articles); SavedTo output_path] in
          let out :=
            match articles with
            | [] => out
            | _ :: _ =>
                out ++ [ParsedArticles]
                    ++ imap (fun i article => listing (S i) article) articles
            end in
          (w', out)
      end
  end.

End Script.


(** ** A sample environment *)

Module SampleRun.

(** The files: the text held under each path. *)
Abbreviation files := (gmap (list N) (list N)) (only parsing).

(** Reading a file that is not there raises [FileNotFoundError]. *)
Definition read (w : files) (path : str) : outcome str :=
  match w !! path with
  | Some text => Value text
  | None =>
      Raised (FileNotFoundError (Exception (lit "No such file or directory")))
  end.

(** The text of the sample page, and a parser that knows this one page
    (it reads any other text as a page without entries). *)
Definition page : str := lit "<ul><li class=item>Study A</li><li class=item></li></ul>".

Definition parse_page (html : str) : outcome Html.node :=
  Value (if bool_decide (html = page) then Sample.report else Html.document []).

(** [json.dumps(articles, indent=2, ensure_ascii=False)] on a list of
    records: the escapes of a string, an object with the five keys in the
    order in which line 70 created them, and the list. *)
Definition hex (n : N) : N := if n <? 10 then 48 + n else 87 + n.

Definition escape (c : N) : str :=
  if c =? 34 then [92; 34]
  else if c =? 92 then [92; 92]
  else if c =? 10 then [92; 110]
  else if c =? 13 then [92; 114]
  else if c =? 9 then [92; 116]
  else if c =? 8 then [92; 98]
  else if c =? 12 then [92; 102]
  else if c <? 32 then [92; 117; 48; 48; hex (c / 16); hex (c mod 16)]
  else [c].

Definition json_string (s : str) : str := [34] ++ concat (escape <$> s) ++ [34].

Definition json_member (article : gmap string str) (key : string) : str :=
  json_string (lit key) ++ lit ": " ++ json_string (article !!! key).

Definition json_object (article : gmap string str) : str :=
  lit "{" ++ [LF] ++ lit "    "
  ++ join ([44; LF] ++ lit "    ")
       (json_member article <$> ["title"; "author(s)"; "year"; "journal"; "abstract"])
  ++ [LF] ++ lit "  }".

Definition json_dumps (articles : list (gmap string str)) : str :=
  match articles with
  | [] => lit "[]"
  | _ :: _ =>
      lit "[" ++ [LF] ++ lit "  "
      ++ join ([44; LF] ++ lit "  ") (json_object <$> articles)
      ++ [LF] ++ lit "]"
  end.

Definition dump (w : files) (path : str) (articles : list (gmap string str))
    : files * option error :=
  (<[path := json_dumps articles]> w, None).

Definition platform : Platform files Html.node :=
  {| read_file := read; BeautifulSoup := parse_page; dump_json := dump |}.

(** The same, in a directory where no file can be created. *)
Definition no_directory : Platform files Html.node :=
  {| read_file := read;
     BeautifulSoup := parse_page;
     dump_json := fun w _ _ =>
       (w, Some (FileNotFoundError (Exception (lit "No such file or directory")))) |}.

(** A disk that holds the sample page, and one that holds nothing. *)
Definition disk : files := {[ lit "Zotero Report.html" := page ]}.
Definition empty_disk : files := ∅.

End SampleRun.


(** The run of [main] on the sample disk, and where nothing can be
    written. *)
Definition sample_main : SampleRun.files -> SampleRun.files * list line :=
  @main Sample.db Html.node Html.soup _ SampleRun.platform.

Definition sample_main_no_directory : SampleRun.files -> SampleRun.files * list line :=
  @main Sample.db Html.node Html.soup _ SampleRun.no_directory.

Section YearFrom.
Context `{UnicodeDb}.

(** The text of the first match of the year pattern in [s], the character
    before [s] being [prev]; empty when there is no match. *)
Definition year_from (prev : option char) (s : str) : str :=
  match Re.search_from year_pattern prev s with
  | Some year_match => Re.group year_match
  | None => []
  end.

End YearFrom.

(** * Properties *)

(** ** Whitespace and tokens *)

Lemma isspace_SP : isspace SP = true.
Proof. reflexivity. Qed.

Lemma isspace_CR : isspace CR = true.
Proof. reflexivity. Qed.

Lemma isspace_LF : isspace LF = true.
Proof. reflexivity. Qed.

Lemma truthy_true (s : str) : truthy s = true <-> s <> [].
Proof. destruct s; simpl; split; congruence. Qed.

Lemma truthy_false (s : str) : truthy s = false <-> s = [].
Proof. destruct s; simpl; split; congruence. Qed.

Lemma split_go_nonspace cur t s :
  Forall (fun c => isspace c = false) t ->
  split_go cur (t ++ s) = split_go (cur ++ t) s.
Proof.
  intros Ht. revert cur. induction Ht as [|c t Hc _ IH]; intros cur; simpl.
  - by rewrite app_nil_r.
  - rewrite Hc, IH. by rewrite <- app_assoc.
Qed.

Lemma split_go_space cur c s :
  isspace c = true ->
  split_go cur (c :: s) = if truthy cur then cur :: split_go [] s else split_go [] s.
Proof. intros Hc. simpl. by rewrite Hc. Qed.

Lemma split_go_char cur c s :
  isspace c = false -> split_go cur (c :: s) = split_go (cur ++ [c]) s.
Proof. intros Hc. simpl. by rewrite Hc. Qed.

Lemma split_go_tokens s cur :
  cur = [] \/ token cur -> Forall token (split_go cur s).
Proof.
  revert cur. induction s as [|c s IH]; intros cur Hcur; simpl.
  - destruct cur as [|d cur]; simpl; [constructor|].
    constructor; [|constructor]. by destruct Hcur.
  - destruct (isspace c) eqn:Hc.
    + destruct cur as [|d cur]; simpl; [apply IH; by left|].
      constructor; [by destruct Hcur | apply IH; by left].
    + apply IH. right. split; [by destruct cur|].
      apply Forall_app. split; [|by repeat constructor].
      destruct Hcur as [->|[_ Hcur]]; [constructor | done].
Qed.

Lemma split_tokens s : Forall token (split s).
Proof. apply split_go_tokens. by left. Qed.

Lemma split_go_cons cur s : cur <> [] -> split_go cur s <> [].
Proof.
  revert cur. induction s as [|c s IH]; intros cur Hcur; simpl.
  - by destruct cur.
  - destruct (isspace c); [by destruct cur | apply IH; by destruct cur].
Qed.

Lemma join_cons sep p q ps :
  join sep (p :: q :: ps) = p ++ sep ++ join sep (q :: ps).
Proof. reflexivity. Qed.

(** Splitting what [join] built from tokens gives the tokens back. *)
Lemma split_join ts : Forall token ts -> split (join [SP] ts) = ts.
Proof.
  unfold split. induction 1 as [|t ts [Ht Hws] Hts IH]; [done|].
  destruct ts as [|t' ts].
  - simpl. rewrite <- (app_nil_r t) at 1. rewrite split_go_nonspace by done.
    simpl. destruct t; [by destruct Ht | done].
  - rewrite join_cons, split_go_nonspace by done.
    change ([SP] ++ ?x) with (SP :: x).
    rewrite split_go_space by done. simpl app. rewrite IH.
    destruct t; [by destruct Ht | done].
Qed.

Lemma join_cons_ne sep p ps :
  ps <> [] -> join sep (p :: ps) = p ++ sep ++ join sep ps.
Proof. by destruct ps. Qed.

Lemma rstrip_nonspace c s : isspace c = false -> rstrip (c :: s) = c :: rstrip s.
Proof. intros Hc. simpl. rewrite Hc. by destruct (rstrip s). Qed.

Lemma rstrip_cons_ne c s : rstrip s <> [] -> rstrip (c :: s) = c :: rstrip s.
Proof. intros Hs. simpl. by destruct (rstrip s). Qed.

Lemma breaks_to_spaces_replace s :
  replace CR SP (replace LF SP s) = breaks_to_spaces s.
Proof.
  unfold replace, breaks_to_spaces. rewrite <- list_fmap_compose.
  apply list_fmap_ext. intros _ c _. simpl.
  destruct (N.eqb_spec c LF) as [->|Hlf].
  - rewrite bool_decide_eq_true_2 by by right. done.
  - destruct (N.eqb_spec c CR) as [->|Hcr].
    + rewrite bool_decide_eq_true_2 by by left. done.
    + rewrite bool_decide_eq_false_2 by (intros [?|?]; done). done.
Qed.

(** The scan of [split], rejoined, is the text with its runs collapsed
    and its ends trimmed. *)
Lemma join_split_go s :
  (forall cur, cur <> [] ->
     join [SP] (split_go cur s) = cur ++ rstrip (collapse_runs s))
  /\ join [SP] (split_go [] s) = lstrip (rstrip (collapse_runs s)).
Proof.
  induction s as [|c s [IH1 IH2]].
  - split; [|done]. intros cur Hcur. simpl. rewrite app_nil_r. by destruct cur.
  - destruct (isspace c) eqn:Hc.
    + destruct s as [|d s].
      * split; [|by simpl; rewrite Hc].
        intros cur Hcur. rewrite split_go_space by done.
        assert (Hcol : rstrip (collapse_runs [c]) = []) by (simpl; by rewrite Hc).
        rewrite Hcol, app_nil_r. by destruct cur.
      * destruct (isspace d) eqn:Hd.
        -- assert (Hcol : collapse_runs (c :: d :: s) = collapse_runs (d :: s))
             by (simpl; by rewrite Hc, Hd).
           rewrite Hcol. split.
           ++ intros cur Hcur. rewrite <- (IH1 cur Hcur).
              rewrite !split_go_space by done. by destruct cur.
           ++ rewrite <- IH2. by rewrite split_go_space.
        -- assert (Hcol : collapse_runs (c :: d :: s) = SP :: collapse_runs (d :: s))
             by (simpl; by rewrite Hc, Hd).
           assert (Hd' : collapse_runs (d :: s) = d :: collapse_runs s)
             by (simpl; by rewrite Hd).
           assert (Hr : rstrip (SP :: collapse_runs (d :: s))
                        = SP :: rstrip (collapse_runs (d :: s))).
           { apply rstrip_cons_ne. by rewrite Hd', rstrip_nonspace. }
           assert (Hl : lstrip (rstrip (collapse_runs (d :: s)))
                        = rstrip (collapse_runs (d :: s))).
           { rewrite Hd', (rstrip_nonspace d) by done. simpl. by rewrite Hd. }
           rewrite Hcol, Hr. split.
           ++ intros cur Hcur. rewrite split_go_space by done.
              replace (truthy cur) with true by by destruct cur.
              rewrite join_cons_ne.
              ** rewrite IH2, Hl. done.
              ** rewrite split_go_char by done. by apply split_go_cons.
           ++ rewrite split_go_space by done. simpl truthy. cbv iota.
              rewrite IH2. reflexivity.
    + assert (Hcol : rstrip (collapse_runs (c :: s)) = c :: rstrip (collapse_runs s)).
      { assert (collapse_runs (c :: s) = c :: collapse_runs s) as ->
          by (simpl; by rewrite Hc).
        by apply rstrip_nonspace. }
      rewrite Hcol. split.
      * intros cur Hcur. rewrite split_go_char by done.
        rewrite IH1 by by destruct cur. by rewrite <- app_assoc.
      * rewrite split_go_char by done. rewrite IH1 by done.
        simpl. by rewrite Hc.
Qed.

Lemma join_split s : join [SP] (split s) = trim (collapse_runs s).
Proof. apply join_split_go. Qed.

(** [clean_text] in terms of the token scan alone. *)
Lemma clean_text_split text :
  clean_text text = join [SP] (split (breaks_to_spaces text)).
Proof.
  unfold clean_text. destruct text as [|c text]; [done|].
  simpl negb. cbv iota. by rewrite breaks_to_spaces_replace.
Qed.

(** ** Tidy strings *)

Lemma no_double_space_nil : no_double_space [].
Proof. intros i c d Hc. by destruct i. Qed.

Lemma no_double_space_cons c s :
  (forall d, head s = Some d -> ~ (isspace c = true /\ isspace d = true)) ->
  no_double_space s -> no_double_space (c :: s).
Proof.
  intros Hhd Hs [|i] x y Hx Hy; simpl in *.
  - simplify_eq. apply Hhd. by rewrite head_lookup.
  - by apply (Hs i).
Qed.

Lemma no_double_space_nonspace t s :
  Forall (fun c => isspace c = false) t ->
  no_double_space s -> no_double_space (t ++ s).
Proof.
  intros Ht Hs. induction Ht as [|c t Hc _ IH]; [done|]. simpl.
  apply no_double_space_cons; [|done]. intros d _ [Hc' _]. congruence.
Qed.

Lemma head_join ts c :
  Forall token ts -> head (join [SP] ts) = Some c -> isspace c = false.
Proof.
  intros Hts Hc. destruct Hts as [|t ts [Hne Hws] Hts]; [done|].
  destruct t as [|c' t]; [done|].
  assert (c = c') as -> by (destruct ts; simpl in Hc; congruence).
  by inversion Hws.
Qed.

Lemma last_token t s c :
  token t -> last (s ++ t) = Some c -> isspace c = false.
Proof.
  intros [Hne Hws] Hc. rewrite last_app in Hc.
  destruct (last t) as [x|] eqn:Hx.
  - simplify_eq. apply last_Some_elem_of in Hx.
    by apply (proj1 (Forall_forall _ _) Hws).
  - by apply last_None in Hx.
Qed.

Lemma last_join ts c :
  Forall token ts -> last (join [SP] ts) = Some c -> isspace c = false.
Proof.
  induction 1 as [|t ts Ht Hts IH]; [done|]. destruct ts as [|t' ts].
  - simpl. rewrite <- (app_nil_l t). by apply last_token.
  - rewrite join_cons, !last_app. intros Hc. apply IH.
    destruct (last (join [SP] (t' :: ts))) eqn:Hl; [done|].
    apply last_None in Hl. exfalso. revert Hl.
    inversion Hts as [|? ? [Hne _] _]; subst. destruct ts; simpl; [done|].
    by destruct t'.
Qed.

Lemma elem_of_join c ts :
  c ∈ join [SP] ts -> c = SP \/ exists t, t ∈ ts /\ c ∈ t.
Proof.
  induction ts as [|t ts IH]; [by intros ?%elem_of_nil|].
  destruct ts as [|t' ts].
  - simpl. intros Hc. right. exists t. split; [by left | done].
  - rewrite join_cons, !elem_of_app. intros [Hc|[Hc|Hc]].
    + right. exists t. split; [by left | done].
    + left. by apply list_elem_of_singleton in Hc.
    + destruct (IH Hc) as [->|(t0 & Ht0 & Hc0)]; [by left|].
      right. exists t0. split; [by right | done].
Qed.

Lemma no_double_space_join ts : Forall token ts -> no_double_space (join [SP] ts).
Proof.
  induction 1 as [|t ts [Hne Hws] Hts IH]; [apply no_double_space_nil|].
  destruct ts as [|t' ts].
  - simpl. rewrite <- (app_nil_r t).
    apply no_double_space_nonspace; [done | apply no_double_space_nil].
  - rewrite join_cons. apply no_double_space_nonspace; [done|].
    apply no_double_space_cons; [|done].
    intros d Hd [_ Hd']. apply head_join in Hd; [congruence | done].
Qed.

(** What [join] builds from tokens is tidy. *)
Lemma tidy_join ts : Forall token ts -> tidy (join [SP] ts).
Proof.
  intros Hts. split; [|split; [by apply no_double_space_join|]].
  - assert (forall c, isspace c = true -> c <> SP -> c ∉ join [SP] ts) as Hnot.
    { intros c Hc Hne [?|(t & Ht & Hct)]%elem_of_join; [done|].
      apply (proj1 (Forall_forall _ _) Hts) in Ht as [_ Hws].
      apply (proj1 (Forall_forall _ _) Hws) in Hct. congruence. }
    split; by apply Hnot.
  - split; intros c; [by apply head_join | by apply last_join].
Qed.

Lemma tidy_nil : tidy [].
Proof. apply (tidy_join []). constructor. Qed.

Lemma tidy_clean_text text : tidy (clean_text text).
Proof. rewrite clean_text_split. apply tidy_join, split_tokens. Qed.

Lemma clean_text_idempotent text : clean_text (clean_text text) = clean_text text.
Proof.
  assert (Hfix : forall s, LF ∉ s -> CR ∉ s -> breaks_to_spaces s = s).
  { intros s. induction s as [|c s IH]; [done|].
    intros [Hlf Hs1]%not_elem_of_cons [Hcr Hs2]%not_elem_of_cons. simpl.
    rewrite IH by done. rewrite bool_decide_eq_false_2; [done|].
    intros [?|?]; congruence. }
  destruct (tidy_clean_text text) as [[Hcr Hlf] _].
  rewrite (clean_text_split (clean_text text)), Hfix by done.
  rewrite clean_text_split. rewrite split_join; [done | apply split_tokens].
Qed.

(** C5: [clean_text] turns each CR and LF into a space, collapses every
    run of whitespace into one space and trims both ends; it is idempotent;
    and it maps "a\n\n  b\r\nc" to "a b c". *)
Theorem clean_text_collapses_trims_idempotent :
  (forall x : str,
     clean_text x = trim (collapse_runs (breaks_to_spaces x))
     /\ clean_text (clean_text x) = clean_text x)
  /\ clean_text (lit "a" ++ [LF; LF; SP; SP] ++ lit "b" ++ [CR; LF] ++ lit "c")
     = lit "a b c".
Proof.
  split; [|reflexivity].
  intros x. split; [|apply clean_text_idempotent].
  rewrite clean_text_split. apply join_split.
Qed.

(** ** Surnames and the author summary *)

Lemma split_go_rstrip s cur : split_go cur (rstrip s) = split_go cur s.
Proof.
  revert cur. induction s as [|c s IH]; intros cur; [done|].
  destruct (decide (rstrip s = [])) as [Hr|Hr].
  - simpl rstrip. rewrite Hr. rewrite Hr in IH. destruct (isspace c) eqn:Hc.
    + rewrite split_go_space by done. rewrite <- (IH []). done.
    + rewrite !split_go_char by done. by rewrite <- IH.
  - rewrite rstrip_cons_ne by done. simpl. by rewrite !IH.
Qed.

Lemma split_lstrip s : split (lstrip s) = split s.
Proof.
  unfold split. induction s as [|c s IH]; [done|]. simpl.
  destruct (isspace c) eqn:Hc; [done|]. simpl. by rewrite Hc.
Qed.

Lemma split_strip s : split (strip s) = split s.
Proof. unfold strip. rewrite split_lstrip. apply split_go_rstrip. Qed.

Lemma rstrip_blank s : rstrip s = [] <-> blank s = true.
Proof.
  induction s as [|c s IH]; [done|]. simpl.
  destruct (rstrip s) as [|r rs].
  - destruct (isspace c); simpl; [|done]. rewrite <- IH. done.
  - destruct (isspace c); simpl; [|done].
    split; [done|]. intros Hb. by apply IH in Hb.
Qed.

Lemma lstrip_blank s : lstrip s = [] <-> blank s = true.
Proof.
  induction s as [|c s IH]; [done|]. simpl. by destruct (isspace c).
Qed.

Lemma blank_rstrip s : blank (rstrip s) = blank s.
Proof.
  induction s as [|c s IH]; [done|]. simpl.
  destruct (rstrip s) as [|r rs] eqn:Hr.
  - assert (blank s = true) as -> by by apply rstrip_blank.
    destruct (isspace c) eqn:Hc; simpl; by rewrite ?Hc.
  - rewrite <- IH. done.
Qed.

Lemma strip_blank s : truthy (strip s) = negb (blank s).
Proof.
  unfold strip. rewrite <- blank_rstrip.
  destruct (blank (rstrip s)) eqn:Hb.
  - apply truthy_false. by apply lstrip_blank.
  - apply truthy_true. intros Hl%lstrip_blank. congruence.
Qed.

Lemma extract_last_name_surname name : extract_last_name name = surname name.
Proof. unfold extract_last_name, surname, last_item. by rewrite split_strip. Qed.

Lemma last_names_surnames names :
  extract_last_name <$> List.filter (fun author => truthy (strip author)) names
  = surname <$> List.filter (fun name => negb (blank name)) names.
Proof.
  rewrite (List.filter_ext _ (fun name => negb (blank name)))
    by (intros a; apply strip_blank).
  apply list_fmap_ext. intros _ a _. apply extract_last_name_surname.
Qed.

(** [split] cuts at whitespace: the tokens of a text around a whitespace
    character are those before it followed by those after it. *)
Lemma split_go_space_between a c b : forall cur,
  isspace c = true ->
  split_go cur (a ++ c :: b) = split_go cur a ++ split b.
Proof.
  induction a as [|x a IH]; intros cur Hc.
  - simpl app at 1. rewrite split_go_space by done. simpl. by destruct (truthy cur).
  - simpl. destruct (isspace x); [|by apply IH].
    destruct (truthy cur); simpl; by rewrite IH.
Qed.

Lemma split_go_blank s : forall cur,
  blank s = true -> split_go cur s = split_go cur [].
Proof.
  induction s as [|c s IH]; intros cur Hs; [done|].
  simpl in Hs. apply andb_prop in Hs as [Hc Hs].
  rewrite split_go_space by done. rewrite (IH []) by done. done.
Qed.

(** A token followed by blanks is the one token of that text. *)
Lemma split_token_blank t post :
  token t -> blank post = true -> split (t ++ post) = [t].
Proof.
  intros [Hne Hws] Hpost. unfold split.
  rewrite split_go_nonspace, split_go_blank by done. simpl.
  destruct t; [by destruct Hne | done].
Qed.

(** The surname is the last token of the name: a token that only blanks
    follow and that starts the name or follows a whitespace character. *)
Lemma surname_last_token pre t post :
  token t -> blank post = true ->
  pre = [] \/ (exists pre' c, pre = pre' ++ [c] /\ isspace c = true) ->
  surname (pre ++ t ++ post) = t.
Proof.
  intros Ht Hpost [->|(pre' & c & -> & Hc)]; unfold surname.
  - simpl. by rewrite split_token_blank.
  - rewrite <- app_assoc. simpl. unfold split.
    rewrite split_go_space_between by done.
    rewrite split_token_blank by done. by rewrite last_snoc.
Qed.

Lemma format_authors_summary (author_list : list str) :
  format_authors author_list = authors_summary author_list.
Proof.
  unfold format_authors, authors_summary.
  destruct author_list as [|a l]; [done|].
  rewrite last_names_surnames.
  destruct (surname <$> List.filter _ (a :: l)) as [|s1 [|s2 [|s3 ss]]]; done.
Qed.

(** C2: [format_authors] drops blank entries, reduces each remaining name
    to its last whitespace-delimited token (or to itself when it has none),
    and answers by the number of names left: nothing, the surname, the two
    surnames joined by " and ", or the first surname followed by " et al". *)
Theorem format_authors_by_multiplicity (author_list : list str) :
  format_authors author_list = authors_summary author_list.
Proof. apply format_authors_summary. Qed.

(** ** The year pattern *)

Section Year.
Context `{UnicodeDb}.

Lemma match_here_year prev s :
  Re.match_here year_pattern prev s (fun _ rest => Some rest) = year_here prev s.
Proof.
  unfold year_pattern, year_here. cbn [Re.match_here].
  destruct (Re.at_boundary prev s) eqn:Hb; [|by destruct s as [|? [|? [|? [|? ?]]]]].
  destruct s as [|c1 [|c2 [|d3 [|d4 rest]]]]; simpl; try done;
    repeat (match goal with
            | |- context [?a =? ?b] => destruct (a =? b) eqn:?
            | |- context [Re.isdecimal ?a] => destruct (Re.isdecimal a) eqn:?
            | |- context [Re.at_boundary ?a ?b] => destruct (Re.at_boundary a b) eqn:?
            end; simpl; try done).
Qed.

Lemma four_digit_year_length y : four_digit_year y -> length y = 4%nat.
Proof. by intros (d3 & d4 & [->| ->] & _). Qed.

Lemma year_here_Some (p s rest : str) :
  year_here (last p) s = Some rest
  <-> exists y, s = y ++ rest /\ year_at (p ++ s) p y rest.
Proof.
  split.
  - destruct s as [|c1 [|c2 [|d3 [|d4 rest']]]]; try done.
    unfold year_here. case_match eqn:Hc; [|done]. intros [= ->].
    repeat (apply andb_prop in Hc as [Hc ?]).
    exists [c1; c2; d3; d4]. split; [done|]. repeat split; try done.
    exists d3, d4. repeat split; try done.
    match goal with
    | Hd : (_ || _) = true |- _ =>
        apply orb_prop in Hd as [Hd|Hd];
        apply andb_prop in Hd as [->%N.eqb_eq ->%N.eqb_eq]; first [by left | by right]
    end.
  - intros (y & -> & _ & (d3 & d4 & Hy & Hd3 & Hd4) & Hb1 & Hb2).
    destruct Hy as [-> | ->]; cbn [app last] in *; unfold year_here;
      cbv beta iota; by rewrite Hb1, Hd3, Hd4, Hb2.
Qed.

(** An occurrence that starts where [s] starts is seen by the matcher. *)
Lemma year_at_here (p s pre y post : str) :
  year_at (p ++ s) pre y post -> length pre = length p ->
  year_here (last p) s = Some post.
Proof.
  intros Hat Hlen. pose proof Hat as (Heq & _).
  apply app_inj_1 in Heq as [<- ->]; [|done].
  apply year_here_Some. by exists y.
Qed.

Lemma search_from_year (p s : str) :
  match Re.search_from year_pattern (last p) s with
  | Some m =>
      exists pre post,
        Re.start m = length pre
        /\ year_at (p ++ s) (p ++ pre) (Re.group m) post
        /\ forall pre' y' post',
             year_at (p ++ s) pre' y' post' ->
             (length p <= length pre')%nat -> (length (p ++ pre) <= length pre')%nat
  | None =>
      forall pre' y' post',
        year_at (p ++ s) pre' y' post' -> (length pre' < length p)%nat
  end.
Proof.
  revert p. induction s as [|c s IH]; intros p.
  - cbn [Re.search_from]. rewrite match_here_year. simpl.
    intros pre' y' post' (Heq & Hy%four_digit_year_length & _).
    apply (f_equal length) in Heq. rewrite !length_app in Heq. simpl in Heq. lia.
  - cbn [Re.search_from]. rewrite match_here_year.
    destruct (year_here (last p) (c :: s)) as [rest|] eqn:Hhere.
    + pose proof Hhere as (y & Hs & Hat)%year_here_Some.
      exists [], rest. rewrite app_nil_r. cbn [Re.start Re.group].
      assert (take (length (c :: s) - length rest) (c :: s) = y) as ->.
      { rewrite Hs, length_app.
        replace (length y + length rest - length rest)%nat with (length y) by lia.
        by rewrite take_app_length. }
      split; [done|]. split; [exact Hat|]. by intros.
    + specialize (IH (p ++ [c])). rewrite last_snoc, <- app_assoc in IH.
      simpl app in IH.
      destruct (Re.search_from year_pattern (Some c) s) as [m|]; simpl.
      * destruct IH as (pre & post & Hstart & Hat & Hmin).
        exists (c :: pre), post. rewrite <- app_assoc in Hat. simpl app in Hat.
        split; [simpl; by rewrite Hstart|]. split; [exact Hat|].
        intros pre' y' post' Hat' Hle.
        destruct (decide (length pre' = length p)) as [Heq|Hne].
        -- rewrite (year_at_here _ _ _ _ _ Hat' Heq) in Hhere. done.
        -- specialize (Hmin pre' y' post' Hat').
           rewrite !length_app in *. simpl in *. lia.
      * intros pre' y' post' Hat'.
        destruct (decide (length pre' = length p)) as [Heq|Hne].
        -- rewrite (year_at_here _ _ _ _ _ Hat' Heq) in Hhere. done.
        -- specialize (IH pre' y' post' Hat').
           rewrite length_app in IH. simpl in IH. lia.
Qed.

Lemma extract_year_first_or_none (date_text : str) :
  first_year date_text (extract_year_from_date date_text)
  \/ (no_year date_text /\ extract_year_from_date date_text = []).
Proof.
  assert (Hnone : (forall pre y post : str,
             year_at date_text pre y post -> (length pre < 0)%nat) ->
           no_year date_text).
  { intros Hs pre y post Hat. specialize (Hs pre y post Hat). lia. }
  unfold extract_year_from_date, Re.search.
  pose proof (search_from_year [] date_text) as Hs. cbn [last app] in Hs.
  destruct date_text as [|c s]; [right; split; [by apply Hnone | done]|].
  cbv [negb truthy].
  destruct (Re.search_from year_pattern None (c :: s)) as [m|].
  - left. destruct Hs as (pre & post & _ & Hat & Hmin).
    exists pre, post. split; [done|].
    intros pre' y' post' Hat'. apply (Hmin _ _ _ Hat'). simpl. lia.
  - right. split; [by apply Hnone | done].
Qed.

(** The first occurrence is one text. *)
Lemma first_year_unique (s y1 y2 : str) :
  first_year s y1 -> first_year s y2 -> y1 = y2.
Proof.
  intros (pre1 & post1 & Hat1 & Hmin1) (pre2 & post2 & Hat2 & Hmin2).
  pose proof (Hmin1 _ _ _ Hat2) as Hle1. pose proof (Hmin2 _ _ _ Hat1) as Hle2.
  destruct Hat1 as (Hs1 & Hy1%four_digit_year_length & _).
  destruct Hat2 as (Hs2 & Hy2%four_digit_year_length & _).
  rewrite Hs1 in Hs2. apply app_inj_1 in Hs2 as [_ Hrest]; [|lia].
  apply app_inj_1 in Hrest as [Hy _]; [done | lia].
Qed.

(** C3: [extract_year_from_date] returns the first substring made of four
    digits that begins with 19 or 20 and lies between word boundaries, and
    the empty string when the text has no such substring; so
    "March 15, 2021" gives "2021", "circa 1850s" gives "",
    "2023-2024 conference" gives "2023" and "" gives "". *)
Theorem extract_year_first_match :
  (forall date_text : str,
     first_year date_text (extract_year_from_date date_text)
     \/ (no_year date_text /\ extract_year_from_date date_text = []))
  /\ extract_year_from_date (lit "March 15, 2021") = lit "2021"
  /\ extract_year_from_date (lit "circa 1850s") = []
  /\ extract_year_from_date (lit "2023-2024 conference") = lit "2023"
  /\ extract_year_from_date [] = [].
Proof.
  split; [apply extract_year_first_or_none|].
  repeat split; reflexivity.
Qed.

End Year.

(** ** The loop over the entries *)

Lemma omap_unfold {A B} (f : A -> option B) x l :
  omap f (x :: l) = match f x with Some y => y :: omap f l | None => omap f l end.
Proof. reflexivity. Qed.

Section LoopFacts.
Context {node : Type}.
Variable extract : node -> result (gmap string str).

(** The loop appends to [parsed_articles] what it keeps of each entry, in
    the order of the entries. *)
Lemma parse_loop_records items : forall i st,
  (parse_loop extract i items st).1 = st.1 ++ omap (kept extract) items.
Proof.
  induction items as [|li items IH]; intros i [records out]; simpl.
  - by rewrite app_nil_r.
  - rewrite IH. unfold parse_step, kept.
    destruct (extract li) as [d|e]; simpl; [|done].
    destruct (truthy (d !!! "title")); simpl; [|done].
    by rewrite <- app_assoc.
Qed.

Lemma parse_items_records items :
  (parse_items extract items).1 = omap (kept extract) items.
Proof. unfold parse_items. by rewrite parse_loop_records. Qed.

(** What was printed before an iteration is still there at the end. *)
Lemma parse_loop_printed items : forall i st msg,
  msg ∈ st.2 -> msg ∈ (parse_loop extract i items st).2.
Proof.
  induction items as [|li items IH]; intros i [records out] msg Hmsg; [done|].
  simpl. apply IH. unfold parse_step.
  destruct (extract li) as [d|e]; [destruct (truthy (d !!! "title"))|];
    simpl; apply elem_of_app; by left.
Qed.

(** An entry on which the extractor raises leaves its line in the output. *)
Lemma parse_loop_error pre li post e : forall i st,
  extract li = Raise e ->
  ErrorParsing (i + length pre + 1) e
    ∈ (parse_loop extract i (pre ++ li :: post) st).2.
Proof.
  induction pre as [|x pre IH]; intros i [records out] Hli.
  - simpl. apply parse_loop_printed. unfold parse_step. rewrite Hli. simpl.
    apply elem_of_app. right. replace (i + 0 + 1)%nat with (i + 1)%nat by lia.
    by apply list_elem_of_singleton.
  - simpl. replace (i + S (length pre) + 1)%nat with (S i + length pre + 1)%nat by lia.
    by apply IH.
Qed.

Lemma kept_length items : (length (omap (kept extract) items) <= length items)%nat.
Proof.
  induction items as [|li items IH]; [done|]. rewrite omap_unfold.
  destruct (kept extract li); simpl; lia.
Qed.

Lemma kept_all items :
  Forall (fun li => is_Some (kept extract li)) items ->
  length (omap (kept extract) items) = length items.
Proof.
  induction 1 as [|li items [d Hd] _ IH]; [done|].
  rewrite omap_unfold, Hd. simpl. by rewrite IH.
Qed.

(** An entry on which the extractor raises is passed over. *)
Lemma kept_raise pre li post e :
  extract li = Raise e ->
  omap (kept extract) (pre ++ li :: post) = omap (kept extract) (pre ++ post).
Proof.
  intros Hli. rewrite !omap_app, omap_unfold. unfold kept at 2. by rewrite Hli.
Qed.

End LoopFacts.

(** ** The row scan *)

Section RowScan.
Context `{UnicodeDb}.

(** The row scan on the field table: each row in turn is stored. *)
Local Abbreviation run table d :=
  (fold_left (fun d (row : list N * list N) => store_field d row.1 row.2) table d).

Lemma date_not_journal : bool_decide (lit "Date" ∈ journal_labels) = false.
Proof. reflexivity. Qed.

Lemma abstract_not_journal : bool_decide (lit "Abstract" ∈ journal_labels) = false.
Proof. reflexivity. Qed.

Lemma store_field_other d l v k :
  k <> "year" -> k <> "journal" -> k <> "abstract" ->
  store_field d l v !! k = d !! k.
Proof.
  intros. unfold store_field.
  repeat case_match; by rewrite ?lookup_insert_ne.
Qed.

Lemma run_other table : forall d k,
  k <> "year" -> k <> "journal" -> k <> "abstract" -> run table d !! k = d !! k.
Proof.
  induction table as [|[l v] table IH]; intros d k ? ? ?; [done|].
  simpl. rewrite IH by done. by apply store_field_other.
Qed.

Lemma store_field_journal_set d l v x :
  d !! "journal" = Some x -> x <> [] -> store_field d l v !! "journal" = Some x.
Proof.
  intros Hd Hx. unfold store_field.
  rewrite (lookup_total_correct _ _ _ Hd).
  replace (truthy x) with true by by destruct x.
  repeat case_match; by rewrite ?lookup_insert_ne.
Qed.

Lemma run_journal_set table : forall d x,
  d !! "journal" = Some x -> x <> [] -> run table d !! "journal" = Some x.
Proof.
  induction table as [|[l v] table IH]; intros d x Hd Hx; [done|].
  simpl. apply IH; [|done]. by apply store_field_journal_set.
Qed.

Lemma run_journal table : forall d,
  d !! "journal" = Some [] ->
  run table d !! "journal"
  = Some (default [] (first_populated journal_labels table)).
Proof.
  induction table as [|[l v] table IH]; intros d Hd; [done|].
  simpl fold_left. unfold first_populated. simpl List.find.
  unfold store_field. rewrite (lookup_total_correct _ _ _ Hd). simpl negb.
  destruct (bool_decide (l = lit "Date")) eqn:Hdate.
  - apply bool_decide_eq_true in Hdate as ->. rewrite date_not_journal. simpl.
    apply IH. by rewrite lookup_insert_ne.
  - destruct (bool_decide (l ∈ journal_labels)) eqn:Hj; simpl.
    + destruct v as [|c v]; simpl.
      * apply IH. by rewrite lookup_insert_eq.
      * apply run_journal_set; [by rewrite lookup_insert_eq | done].
    + apply IH. case_match; by rewrite ?lookup_insert_ne.
Qed.

Lemma values_of_snoc label table l v :
  values_of label (table ++ [(l, v)])
  = values_of label table ++ (if bool_decide (l = label) then [v] else []).
Proof.
  unfold values_of. rewrite List.filter_app, fmap_app. simpl.
  by destruct (bool_decide (l = label)).
Qed.

Lemma run_snoc table l v d :
  run (table ++ [(l, v)]) d = store_field (run table d) l v.
Proof. by rewrite fold_left_app. Qed.

Lemma store_field_abstract d l v :
  store_field d l v !! "abstract"
  = if bool_decide (l = lit "Abstract") then Some v else d !! "abstract".
Proof.
  unfold store_field.
  destruct (bool_decide (l = lit "Date")) eqn:Hdate.
  - apply bool_decide_eq_true in Hdate as ->. by rewrite lookup_insert_ne.
  - destruct (bool_decide (l ∈ journal_labels)) eqn:Hj.
    + assert (bool_decide (l = lit "Abstract") = false) as ->.
      { apply bool_decide_eq_false. intros ->. by rewrite abstract_not_journal in Hj. }
      case_match; by rewrite ?lookup_insert_ne.
    + destruct (bool_decide (l = lit "Abstract")); [|done].
      by rewrite lookup_insert_eq.
Qed.

Lemma store_field_year d l v :
  store_field d l v !! "year"
  = if bool_decide (l = lit "Date")
    then Some (extract_year_from_date v)
    else d !! "year".
Proof.
  unfold store_field.
  destruct (bool_decide (l = lit "Date")); [by rewrite lookup_insert_eq|].
  repeat case_match; by rewrite ?lookup_insert_ne.
Qed.

Lemma run_abstract table d :
  run table d !! "abstract"
  = match last (values_of (lit "Abstract") table) with
    | Some v => Some v
    | None => d !! "abstract"
    end.
Proof.
  induction table as [|[l v] table IH] using rev_ind; [done|].
  rewrite run_snoc, values_of_snoc, store_field_abstract.
  destruct (bool_decide (l = lit "Abstract")).
  - by rewrite last_snoc.
  - by rewrite app_nil_r.
Qed.

Lemma run_year table d :
  run table d !! "year"
  = match last (values_of (lit "Date") table) with
    | Some v => Some (extract_year_from_date v)
    | None => d !! "year"
    end.
Proof.
  induction table as [|[l v] table IH] using rev_ind; [done|].
  rewrite run_snoc, values_of_snoc, store_field_year.
  destruct (bool_decide (l = lit "Date")).
  - by rewrite last_snoc.
  - by rewrite app_nil_r.
Qed.

End RowScan.

(** ** Tidy fields *)

Lemma split_go_nonblank s : forall cur, blank s = false -> split_go cur s <> [].
Proof.
  induction s as [|c s IH]; intros cur Hs; [done|]. simpl in *.
  destruct (isspace c); simpl in Hs.
  - destruct (truthy cur); [done | by apply IH].
  - apply split_go_cons. by destruct cur.
Qed.

Lemma surname_token name : blank name = false -> token (surname name).
Proof.
  intros Hname. unfold surname.
  destruct (last (split name)) as [t|] eqn:Hlast.
  - apply last_Some_elem_of in Hlast.
    by apply (proj1 (Forall_forall _ _) (split_tokens name)).
  - apply last_None in Hlast. by apply split_go_nonblank in Hlast.
Qed.

Lemma surnames_tokens names :
  Forall token (surname <$> List.filter (fun name => negb (blank name)) names).
Proof.
  apply Forall_fmap, Forall_forall. intros name Hin. simpl.
  apply list_elem_of_In, List.filter_In in Hin as [_ Hname].
  apply surname_token. by destruct (blank name).
Qed.

Lemma token_lit_and : token (lit "and").
Proof. split; [done | by repeat constructor]. Qed.

Lemma token_lit_et : token (lit "et").
Proof. split; [done | by repeat constructor]. Qed.

Lemma token_lit_al : token (lit "al").
Proof. split; [done | by repeat constructor]. Qed.

Lemma tidy_format_authors names : tidy (format_authors names).
Proof.
  rewrite format_authors_summary. unfold authors_summary.
  pose proof (surnames_tokens names) as Htok.
  destruct (surname <$> List.filter _ names) as [|s1 [|s2 [|s3 ss]]].
  - apply tidy_nil.
  - by apply (tidy_join [s1]).
  - apply (tidy_join [s1; lit "and"; s2]).
    inversion Htok as [|? ? ? Htok']; inversion Htok'; subst.
    apply Forall_cons_2; [done|]. apply Forall_cons_2; [apply token_lit_and|].
    by apply Forall_cons_2.
  - apply (tidy_join [s1; lit "et"; lit "al"]).
    inversion Htok; subst.
    apply Forall_cons_2; [done|]. apply Forall_cons_2; [apply token_lit_et|].
    apply Forall_cons_2; [apply token_lit_al | constructor].
Qed.

Section YearTidy.
Context `{UnicodeDb}.
Hypothesis decimal_not_space : forall c, db_isdecimal c = true -> isspace c = false.

Lemma isdecimal_not_space c : Re.isdecimal c = true -> isspace c = false.
Proof.
  unfold Re.isdecimal. destruct (N.ltb_spec c 128) as [Hlt|Hge]; [|by auto].
  intros [H1%N.leb_le H2%N.leb_le]%andb_prop.
  destruct (isspace c) eqn:Hc; [exfalso|done]. unfold isspace in Hc.
  repeat (apply orb_prop in Hc as [Hc|Hc]);
    try (apply andb_prop in Hc as [Ha%N.leb_le Hb%N.leb_le]);
    try (apply N.eqb_eq in Hc); lia.
Qed.

Lemma four_digit_year_token y : four_digit_year y -> token y.
Proof.
  intros (d3 & d4 & Hy & Hd3%isdecimal_not_space & Hd4%isdecimal_not_space).
  destruct Hy as [-> | ->]; (split; [done | by repeat constructor]).
Qed.

Lemma tidy_extract_year date_text : tidy (extract_year_from_date date_text).
Proof.
  destruct (extract_year_first_or_none date_text)
    as [(pre & post & (_ & Hy & _) & _) | [_ ->]]; [|apply tidy_nil].
  apply (tidy_join [_]). apply Forall_cons_2; [|constructor].
  by apply four_digit_year_token.
Qed.

End YearTidy.

(** ** The record of an entry *)

Section ArticleFacts.
Context `{UnicodeDb} `{Soup node}.

Local Abbreviation run table d :=
  (fold_left (fun d (row : list N * list N) => store_field d row.1 row.2) table d).

Lemma scan_rows_table rows : forall d,
  fold_left scan_row rows d = run (omap field_row rows) d.
Proof.
  induction rows as [|row rows IH]; intros d; [done|].
  rewrite omap_unfold. simpl fold_left. rewrite IH.
  unfold scan_row, field_row.
  destruct (find row (lit "th")), (find row (lit "td")); done.
Qed.

(** The heading of an entry, cleaned; empty when there is none. *)
Lemma parse_article_scan article_li :
  exists d0,
    parse_article article_li = run (field_table article_li) d0
    /\ d0 !! "title"
       = Some (match find article_li (lit "h2") with
               | Some title_element => clean_text (get_text title_element)
               | None => []
               end)
    /\ d0 !! "year" = Some []
    /\ d0 !! "journal" = Some []
    /\ d0 !! "abstract" = Some [].
Proof.
  unfold parse_article, field_table.
  destruct (find article_li (lit "table")) as [table|].
  - eexists. split; [apply scan_rows_table|].
    destruct (find article_li (lit "h2")); done.
  - eexists. split; [reflexivity|].
    destruct (find article_li (lit "h2")); done.
Qed.

Lemma parse_article_journal_first article_li :
  parse_article article_li !! "journal"
  = Some (default [] (first_populated journal_labels (field_table article_li))).
Proof.
  destruct (parse_article_scan article_li) as (d0 & -> & _ & _ & Hj & _).
  by apply run_journal.
Qed.

Lemma parse_article_abstract_last article_li :
  parse_article article_li !! "abstract"
  = Some (default [] (last (values_of (lit "Abstract") (field_table article_li)))).
Proof.
  destruct (parse_article_scan article_li) as (d0 & -> & _ & _ & _ & Ha).
  rewrite run_abstract, Ha. by destruct (last _).
Qed.

Lemma parse_article_year_last article_li :
  parse_article article_li !! "year"
  = Some (default []
            (extract_year_from_date
               <$> last (values_of (lit "Date") (field_table article_li)))).
Proof.
  destruct (parse_article_scan article_li) as (d0 & -> & _ & Hy & _).
  rewrite run_year, Hy. by destruct (last _).
Qed.

Lemma parse_article_title article_li :
  parse_article article_li !! "title"
  = Some (match find article_li (lit "h2") with
          | Some title_element => clean_text (get_text title_element)
          | None => []
          end).
Proof.
  destruct (parse_article_scan article_li) as (d0 & -> & Ht & _).
  by rewrite run_other.
Qed.

End ArticleFacts.

Section ArticleClaims.
Context `{UnicodeDb} `{Soup node}.

Lemma no_year_extract (date_text : str) :
  no_year date_text <-> extract_year_from_date date_text = [].
Proof.
  destruct (extract_year_first_or_none date_text) as [Hfirst | [Hno Hnil]].
  - destruct Hfirst as (pre & post & Hat & _). split.
    + intros Hno. by destruct (Hno _ _ _ Hat).
    + intros Hnil. rewrite Hnil in Hat.
      destruct Hat as (_ & Hy%four_digit_year_length & _). done.
  - done.
Qed.

Lemma values_of_app label (t1 t2 : list (list N * list N)) :
  values_of label (t1 ++ t2) = values_of label t1 ++ values_of label t2.
Proof. unfold values_of. by rewrite List.filter_app, fmap_app. Qed.

Lemma values_of_cons label l v (t : list (list N * list N)) :
  values_of label ((l, v) :: t)
  = if bool_decide (l = label) then v :: values_of label t else values_of label t.
Proof. unfold values_of. simpl. by destruct (bool_decide (l = label)). Qed.

Lemma first_populated_skip labels (before after : list (list N * list N)) :
  first_populated labels before = None ->
  first_populated labels (before ++ after) = first_populated labels after.
Proof.
  unfold first_populated. induction before as [|row before IH]; [done|]. simpl.
  destruct (bool_decide (row.1 ∈ labels) && truthy (row.2)); [done | apply IH].
Qed.

(** C4: the journal field is the cleaned value of the first row, in
    row-scan order, whose label is Publication, Proceedings Title or
    Publisher and whose value is not empty; rows of the group after it
    change nothing.  So Proceedings Title = "X" before Publisher = "Y"
    gives "X", and the rows in the other order give "Y". *)
Theorem journal_first_populated_row :
  (forall article_li : node,
     parse_article article_li !! "journal"
     = Some (default [] (first_populated journal_labels (field_table article_li))))
  /\ (forall (article_li : node) before label value after,
        field_table article_li = before ++ (label, value) :: after ->
        first_populated journal_labels before = None ->
        label ∈ journal_labels -> value <> [] ->
        parse_article article_li !! "journal" = Some value)
  /\ (forall article_li : node,
        field_table article_li
        = [(lit "Proceedings Title", lit "X"); (lit "Publisher", lit "Y")] ->
        parse_article article_li !! "journal" = Some (lit "X"))
  /\ (forall article_li : node,
        field_table article_li
        = [(lit "Publisher", lit "Y"); (lit "Proceedings Title", lit "X")] ->
        parse_article article_li !! "journal" = Some (lit "Y")).
Proof.
  split; [apply parse_article_journal_first|]. split; [|split].
  - intros li before label value after Htable Hbefore Hlabel Hvalue.
    rewrite parse_article_journal_first, Htable.
    rewrite first_populated_skip by done. unfold first_populated. simpl.
    rewrite bool_decide_eq_true_2 by done. by destruct value.
  - intros li Htable. by rewrite parse_article_journal_first, Htable.
  - intros li Htable. by rewrite parse_article_journal_first, Htable.
Qed.

(** C6: the abstract field is the cleaned value of the last row labelled
    Abstract, in row-scan order, and the empty string when the table has
    no such row. *)
Theorem abstract_last_row (article_li : node) :
  parse_article article_li !! "abstract"
  = Some (match last (values_of (lit "Abstract") (field_table article_li)) with
          | Some value => value
          | None => []
          end).
Proof. apply parse_article_abstract_last. Qed.

(** C9: the year field is the year extracted from the last Date row, in
    row-scan order; a last Date row whose value has no year leaves the
    field empty, whatever the Date rows before it held. *)
Theorem year_last_date_row :
  (forall article_li : node,
     parse_article article_li !! "year"
     = Some (match last (values_of (lit "Date") (field_table article_li)) with
             | Some value => extract_year_from_date value
             | None => []
             end))
  /\ (forall (article_li : node) before value after,
        field_table article_li = before ++ (lit "Date", value) :: after ->
        values_of (lit "Date") after = [] ->
        no_year value ->
        parse_article article_li !! "year" = Some []).
Proof.
  split.
  - intros li. rewrite parse_article_year_last. by destruct (last _).
  - intros li before value after Htable Hafter Hno.
    rewrite parse_article_year_last, Htable.
    assert (values_of (lit "Date") (before ++ (lit "Date", value) :: after)
            = values_of (lit "Date") before ++ [value]) as ->.
    { rewrite values_of_app, values_of_cons, Hafter.
      by rewrite bool_decide_eq_true_2. }
    rewrite last_snoc. simpl. f_equal. by apply no_year_extract.
Qed.

End ArticleClaims.

(** ** Every field is present and tidy *)

Section RecordShape.
Context `{UnicodeDb} `{Soup node}.
Hypothesis decimal_not_space : forall c, db_isdecimal c = true -> isspace c = false.

(** Every key of the record is bound to a tidy string. *)
Local Abbreviation shaped d :=
  (forall key : string, key ∈ record_keys ->
     exists value : list N, d !! key = Some value /\ tidy value).

Lemma shaped_empty : shaped empty_article.
Proof.
  intros key Hkey. exists []. split; [|apply tidy_nil].
  unfold record_keys in Hkey. unfold empty_article.
  repeat (apply elem_of_union in Hkey as [Hkey|Hkey]);
    apply elem_of_singleton in Hkey as ->; done.
Qed.

Lemma shaped_insert (d : gmap string (list N)) key value :
  shaped d -> tidy value -> shaped (<[key := value]> d).
Proof.
  intros Hd Hvalue key' Hkey'. destruct (decide (key = key')) as [->|Hne].
  - exists value. by rewrite lookup_insert_eq.
  - rewrite lookup_insert_ne by done. by apply Hd.
Qed.

Lemma shaped_store_field (d : gmap string (list N)) label value :
  shaped d -> tidy value -> shaped (store_field d label value).
Proof.
  intros Hd Hvalue. unfold store_field.
  repeat case_match; try done; apply shaped_insert; try done.
  by apply tidy_extract_year.
Qed.

Lemma shaped_scan_rows rows : forall d : gmap string (list N), shaped d -> shaped (fold_left scan_row rows d).
Proof.
  induction rows as [|row rows IH]; intros d Hd; [done|].
  simpl. apply IH. unfold scan_row.
  destruct (find row (lit "th")), (find row (lit "td")); try done.
  apply shaped_store_field; [done | apply tidy_clean_text].
Qed.

Lemma shaped_parse_article article_li : shaped (parse_article article_li).
Proof.
  unfold parse_article.
  assert (Htitled : shaped
            match find article_li (lit "h2") with
            | Some title_element =>
                <["title" := clean_text (get_text title_element)]> empty_article
            | None => empty_article
            end).
  { destruct (find article_li (lit "h2")); [|apply shaped_empty].
    apply shaped_insert; [apply shaped_empty | apply tidy_clean_text]. }
  destruct (find article_li (lit "table")); [|done].
  apply shaped_scan_rows, shaped_insert; [done | apply tidy_format_authors].
Qed.

(** C10: in the record [parse_article] returns, each of the five keys is
    bound to a string without CR or LF, without two consecutive whitespace
    characters and without whitespace at either end. *)
Theorem record_fields_present_and_tidy (article_li : node) (key : string) :
  key ∈ record_keys ->
  exists value : str,
    parse_article article_li !! key = Some value
    /\ no_line_break value /\ no_double_space value /\ no_outer_space value.
Proof. apply shaped_parse_article. Qed.

End RecordShape.

(** ** The report *)

Section ReportClaims.
Context `{UnicodeDb} `{Soup node}.

Local Abbreviation extractor :=
  (fun article_li : node => Return (parse_article article_li)).

Lemma kept_filter items :
  omap (kept extractor) items
  = List.filter (fun d => truthy (d !!! "title")) (parse_article <$> items).
Proof.
  induction items as [|li items IH]; [done|].
  rewrite omap_unfold, fmap_cons. simpl List.filter. unfold kept at 1.
  destruct (truthy (parse_article li !!! "title")); by rewrite IH.
Qed.

Lemma report_records soup :
  (parse_zotero_html_report soup).1
  = List.filter (fun d => truthy (d !!! "title"))
      (parse_article <$> find_all soup (lit "li") (Some (lit "item"))).
Proof.
  unfold parse_zotero_html_report. by rewrite parse_items_records, kept_filter.
Qed.

(** C1: every record of the returned list has a non-empty title, and an
    entry whose extracted title is empty adds no record to it. *)
Theorem report_titles_nonempty (soup : node) :
  Forall (fun d => exists title : str, d !! "title" = Some title /\ title <> [])
    (parse_zotero_html_report soup).1
  /\ (forall before article_li after,
        find_all soup (lit "li") (Some (lit "item")) = before ++ article_li :: after ->
        parse_article article_li !! "title" = Some [] ->
        (parse_zotero_html_report soup).1
        = (parse_items extractor (before ++ after)).1).
Proof.
  split.
  - rewrite report_records. apply Forall_forall. intros d Hd.
    apply list_elem_of_In, List.filter_In in Hd as [Hd Htitle].
    apply list_elem_of_In, list_elem_of_fmap in Hd as (li & -> & _).
    eexists. split; [apply parse_article_title|].
    rewrite (lookup_total_correct _ _ _ (parse_article_title li)) in Htitle.
    by apply truthy_true.
  - intros before li after Hitems Htitle. unfold parse_zotero_html_report.
    rewrite Hitems, !parse_items_records, !omap_app, omap_unfold.
    unfold kept at 2. by rewrite (lookup_total_correct _ _ _ Htitle).
Qed.

(** C7: when the extraction of one entry of the document raises, only
    that entry is skipped: the records returned are those of the other
    entries, a line reporting the error is printed, and of N entries at
    most N-1 records come out, exactly N-1 when every other entry yields a
    titled record.  The run itself returns its list in every case. *)
Theorem fault_skips_one_entry
    (extract : node -> result (gmap string str)) (soup : node)
    (before after : list node) (article_li : node) (e : exn) :
  find_all soup (lit "li") (Some (lit "item")) = before ++ article_li :: after ->
  extract article_li = Raise e ->
  let article_items := find_all soup (lit "li") (Some (lit "item")) in
  (parse_items extract article_items).1
    = (parse_items extract (before ++ after)).1
  /\ ErrorParsing (length before + 1) e ∈ (parse_items extract article_items).2
  /\ (length (parse_items extract article_items).1 <= length article_items - 1)%nat
  /\ (Forall (fun x => is_Some (kept extract x)) (before ++ after) ->
      length (parse_items extract article_items).1
      = (length article_items - 1)%nat).
Proof.
  intros Hitems Hli article_items. subst article_items. rewrite Hitems.
  assert (Hlen : (length (before ++ article_li :: after) - 1
                  = length (before ++ after))%nat).
  { rewrite !length_app. simpl. lia. }
  rewrite !parse_items_records, (kept_raise _ _ _ _ _ Hli), Hlen.
  split; [done|]. split; [|split].
  - apply (parse_loop_error extract before article_li after e 0 _ Hli).
  - apply kept_length.
  - apply kept_all.
Qed.

(** C8: the returned list is the sequence of the records of the entries
    that have a title, in the order in which the entries appear in the
    document. *)
Theorem report_preserves_document_order (soup : node) :
  (parse_zotero_html_report soup).1
  = List.filter (fun d => truthy (d !!! "title"))
      (parse_article <$> find_all soup (lit "li") (Some (lit "item"))).
Proof. apply report_records. Qed.

End ReportClaims.

(** ** The properties on the sample documents *)

Lemma sample_decimal_not_space c :
  @db_isdecimal Sample.db c = true -> isspace c = false.
Proof.
  simpl. intros [H1%N.leb_le H2%N.leb_le]%andb_prop.
  destruct (isspace c) eqn:Hc; [exfalso|done]. unfold isspace in Hc.
  repeat (apply orb_prop in Hc as [Hc|Hc]);
    try (apply andb_prop in Hc as [Ha%N.leb_le Hb%N.leb_le]);
    try (apply N.eqb_eq in Hc); lia.
Qed.

Lemma fault_skips_one_entry_sample :
  @find_all _ Html.soup Sample.faulty_report (lit "li") (Some (lit "item"))
  = [Sample.first_item] ++ Sample.broken_item :: [Sample.last_item]
  /\ Sample.faulty Sample.broken_item = Raise (Exception (lit "malformed table"))
  /\ (parse_items Sample.faulty
        (@find_all _ Html.soup Sample.faulty_report (lit "li") (Some (lit "item")))).1
     = (parse_items Sample.faulty ([Sample.first_item] ++ [Sample.last_item])).1
  /\ ErrorParsing 2 (Exception (lit "malformed table"))
       ∈ (parse_items Sample.faulty
            (@find_all _ Html.soup Sample.faulty_report (lit "li") (Some (lit "item")))).2.
Proof.
  split; [reflexivity|]. split; [reflexivity|].
  pose proof (@fault_skips_one_entry _ Html.soup Sample.faulty Sample.faulty_report
                [Sample.first_item] [Sample.last_item] Sample.broken_item
                (Exception (lit "malformed table")) eq_refl eq_refl)
    as (Hrecords & Hline & _).
  split; [exact Hrecords | exact Hline].
Defined.

Lemma journal_first_populated_row_sample :
  @field_table _ Html.soup Sample.entry_xy
  = [(lit "Proceedings Title", lit "X"); (lit "Publisher", lit "Y")]
  /\ @parse_article Sample.db _ Html.soup Sample.entry_xy !! "journal" = Some (lit "X")
  /\ @field_table _ Html.soup Sample.entry_yx
     = [(lit "Publisher", lit "Y"); (lit "Proceedings Title", lit "X")]
  /\ @parse_article Sample.db _ Html.soup Sample.entry_yx !! "journal" = Some (lit "Y").
Proof.
  pose proof (@journal_first_populated_row Sample.db _ Html.soup) as (_ & _ & Hxy & Hyx).
  split; [reflexivity|]. split; [apply Hxy; reflexivity|].
  split; [reflexivity|]. apply Hyx; reflexivity.
Defined.

Lemma year_last_date_row_sample :
  @field_table _ Html.soup Sample.entry_two_dates
  = [(lit "Date", lit "2019-05")] ++ (lit "Date", lit "n.d.") :: []
  /\ @extract_year_from_date Sample.db (lit "2019-05") = lit "2019"
  /\ @parse_article Sample.db _ Html.soup Sample.entry_two_dates !! "year" = Some [].
Proof.
  split; [reflexivity|]. split; [reflexivity|].
  apply (proj2 (@year_last_date_row Sample.db _ Html.soup)
           Sample.entry_two_dates [(lit "Date", lit "2019-05")] (lit "n.d.") []).
  - reflexivity.
  - reflexivity.
  - apply no_year_extract. reflexivity.
Defined.

Lemma record_fields_present_and_tidy_sample :
  exists value : str,
    @parse_article Sample.db _ Html.soup Sample.first_item !! "year" = Some value
    /\ no_line_break value /\ no_double_space value /\ no_outer_space value.
Proof.
  apply (@record_fields_present_and_tidy Sample.db _ Html.soup
           sample_decimal_not_space Sample.first_item "year").
  unfold record_keys. set_solver.
Defined.

Lemma report_titles_nonempty_sample :
  @find_all _ Html.soup Sample.report (lit "li") (Some (lit "item"))
  = [(Sample.study_a, [Sample.untitled])] ++ (Sample.untitled, []) :: []
  /\ @parse_article Sample.db _ Html.soup (Sample.untitled, []) !! "title" = Some []
  /\ (@parse_zotero_html_report Sample.db _ Html.soup Sample.report).1
     = (parse_items
          (fun article_li => Return (@parse_article Sample.db _ Html.soup article_li))
          ([(Sample.study_a, [Sample.untitled])] ++ [])).1.
Proof.
  split; [reflexivity|]. split; [reflexivity|].
  apply (proj2 (@report_titles_nonempty Sample.db _ Html.soup Sample.report)
           [(Sample.study_a, [Sample.untitled])] (Sample.untitled, []) []);
    reflexivity.
Defined.

(** ** Worked examples *)

Example format_authors_none : format_authors [] = [].
Proof. reflexivity. Qed.

Example format_authors_one : format_authors [lit "Jane Doe"] = lit "Doe".
Proof. reflexivity. Qed.

Example format_authors_two :
  format_authors [lit "Jane Doe"; lit "John Q Smith"] = lit "Doe and Smith".
Proof. reflexivity. Qed.

Example format_authors_three :
  format_authors [lit "A B"; lit "C D"; lit "E F"] = lit "B et al".
Proof. reflexivity. Qed.

(** A no-break space (U+00A0) separates words like any other whitespace. *)
Example clean_text_no_break_space :
  clean_text (lit "Jane" ++ [160] ++ lit "Doe") = lit "Jane Doe".
Proof. reflexivity. Qed.

(** [\d] also accepts the decimal digits outside ASCII. *)
Example extract_year_arabic_indic :
  @extract_year_from_date Sample.db [49; 57; 1636; 1637] = [49; 57; 1636; 1637].
Proof. reflexivity. Qed.

(** A year glued to a letter or to another digit is not between word
    boundaries. *)
Example extract_year_needs_boundaries :
  @extract_year_from_date Sample.db (lit "v2019b and 120201") = [].
Proof. reflexivity. Qed.

(** The end-to-end scenario: of the two entries, the first gives the one
    record of the result and the second, which has no heading, none. *)
Example report_end_to_end :
  exists d,
    @parse_zotero_html_report Sample.db _ Html.soup Sample.report
    = ([d], [Found 2; Parsed (lit "Study A"); Skipped 2])
    /\ d !! "title" = Some (lit "Study A")
    /\ d !! "author(s)" = Some (lit "Smith and Jones")
    /\ d !! "year" = Some (lit "2019")
    /\ d !! "journal" = Some (lit "Journal Q")
    /\ d !! "abstract" = Some (lit "Summary text").
Proof. eexists. split; [vm_compute; reflexivity|]. vm_compute. by repeat split. Qed.

(** With the broken entry between the two others the run still ends, and
    reports the error for entry 2. *)
Example report_with_fault :
  exists d,
    parse_items Sample.faulty
      [Sample.first_item; Sample.broken_item; Sample.last_item]
    = ([d], [Found 3; Parsed (lit "Study A");
             ErrorParsing 2 (Exception (lit "malformed table")); Skipped 3]).
Proof. eexists. vm_compute. reflexivity. Qed.

(** * Further properties *)

(** ** More on [clean_text] *)

Lemma breaks_to_spaces_id s : CR ∉ s -> LF ∉ s -> breaks_to_spaces s = s.
Proof.
  induction s as [|c s IH]; [done|].
  intros [Hcr Hs1]%not_elem_of_cons [Hlf Hs2]%not_elem_of_cons. simpl.
  rewrite IH by done. rewrite bool_decide_eq_false_2; [done|].
  intros [?|?]; congruence.
Qed.

Lemma split_go_breaks s : forall cur,
  split_go cur (breaks_to_spaces s) = split_go cur s.
Proof.
  induction s as [|c s IH]; intros cur; [done|]. simpl.
  case_bool_decide as Hc.
  - assert (isspace c = true) as -> by (by destruct Hc as [-> | ->]).
    simpl. by rewrite !IH.
  - by rewrite !IH.
Qed.

Lemma spaces_only_join ts : Forall token ts -> spaces_only (join [SP] ts).
Proof.
  intros Hts. apply Forall_forall. intros c [->|(t & Ht & Hc)]%elem_of_join Hsp; [done|].
  apply (proj1 (Forall_forall _ _) Hts) in Ht as [_ Hws].
  apply (proj1 (Forall_forall _ _) Hws) in Hc. congruence.
Qed.

Lemma no_double_space_inv c s :
  no_double_space (c :: s) ->
  no_double_space s
  /\ forall d, head s = Some d -> ~ (isspace c = true /\ isspace d = true).
Proof.
  intros Hcs. split.
  - intros i x y Hx Hy. by apply (Hcs (S i) x y).
  - intros d Hd. apply (Hcs 0%nat c d); [done|]. by rewrite head_lookup in Hd.
Qed.

Lemma collapse_runs_id s : no_double_space s -> spaces_only s -> collapse_runs s = s.
Proof.
  induction s as [|c s IH]; [done|].
  intros [Hs Hhd]%no_double_space_inv Hsp.
  apply Forall_cons in Hsp as [Hc Hsp]. simpl.
  destruct (isspace c) eqn:Hspc.
  - rewrite (Hc eq_refl) in *. destruct s as [|d s]; [done|].
    destruct (isspace d) eqn:Hspd.
    + by destruct (Hhd d eq_refl).
    + by rewrite IH.
  - by rewrite IH.
Qed.

Lemma lstrip_id s : (forall c, head s = Some c -> isspace c = false) -> lstrip s = s.
Proof. destruct s as [|c s]; [done|]. intros Hc. simpl. by rewrite (Hc c). Qed.

Lemma rstrip_id s : (forall c, last s = Some c -> isspace c = false) -> rstrip s = s.
Proof.
  induction s as [|c s IH]; [done|]. intros Hlast.
  destruct s as [|d s].
  - simpl. by rewrite (Hlast c).
  - rewrite rstrip_cons_ne; rewrite IH; try done.
Qed.

Lemma clean_text_tidy_id x : tidy x -> spaces_only x -> clean_text x = x.
Proof.
  intros ([Hcr Hlf] & Hdouble & Hhead & Hlast) Hsp.
  rewrite clean_text_split, breaks_to_spaces_id by done.
  rewrite join_split, collapse_runs_id by done.
  unfold trim. by rewrite rstrip_id, lstrip_id.
Qed.

(** X1: whatever whitespace the text held (tabs, no-break spaces, line
    breaks), the only whitespace character [clean_text] leaves is the
    space U+0020. *)
Theorem clean_text_leaves_only_spaces (x : str) : spaces_only (clean_text x).
Proof. rewrite clean_text_split. apply spaces_only_join, split_tokens. Qed.

(** X2: the strings [clean_text] leaves unchanged are exactly the tidy
    ones whose whitespace is made of spaces only. *)
Theorem clean_text_fixed_points (x : str) :
  clean_text x = x <-> tidy x /\ spaces_only x.
Proof.
  split.
  - intros <-. split; [apply tidy_clean_text|].
    rewrite clean_text_split. apply spaces_only_join, split_tokens.
  - intros [Htidy Hsp]. by apply clean_text_tidy_id.
Qed.

Lemma split_clean_text x : split (clean_text x) = split x.
Proof.
  rewrite clean_text_split, split_join by apply split_tokens.
  apply split_go_breaks.
Qed.

(** X3: [clean_text] keeps the words: the cleaned text splits into the
    same tokens, in the same order, as the original. *)
Theorem clean_text_keeps_words (x : str) : split (clean_text x) = split x.
Proof. apply split_clean_text. Qed.

Lemma concat_split_go s : forall cur,
  concat (split_go cur s) = cur ++ List.filter (fun c => negb (isspace c)) s.
Proof.
  induction s as [|c s IH]; intros cur; simpl.
  - destruct cur; simpl; by rewrite ?app_nil_r.
  - destruct (isspace c); simpl.
    + destruct cur as [|d cur]; simpl; by rewrite IH.
    + by rewrite IH, <- app_assoc.
Qed.

(** X4: [clean_text] neither drops, adds nor reorders a character that is
    not whitespace. *)
Theorem clean_text_keeps_visible_characters (x : str) :
  List.filter (fun c => negb (isspace c)) (clean_text x)
  = List.filter (fun c => negb (isspace c)) x.
Proof.
  pose proof (concat_split_go (clean_text x) []) as H1.
  pose proof (concat_split_go x []) as H2. simpl in H1, H2.
  rewrite <- H1, <- H2. fold (split (clean_text x)) (split x).
  by rewrite split_clean_text.
Qed.

Lemma split_nil_blank s : split s = [] <-> blank s = true.
Proof.
  split.
  - intros Hs. destruct (blank s) eqn:Hb; [done|].
    by apply (split_go_nonblank s []) in Hb.
  - intros Hb. unfold split. by rewrite split_go_blank.
Qed.

(** X5: [clean_text] answers the empty string exactly for the texts that
    hold nothing but whitespace. *)
Theorem clean_text_empty_iff_blank (x : str) :
  clean_text x = [] <-> blank x = true.
Proof.
  rewrite <- split_nil_blank, <- split_clean_text. split.
  - by intros ->.
  - intros Hs. rewrite clean_text_split in *.
    rewrite split_join in Hs by apply split_tokens. by rewrite Hs.
Qed.

Lemma length_lstrip s : (length (lstrip s) <= length s)%nat.
Proof. induction s as [|c s IH]; simpl; [done|]. destruct (isspace c); simpl; lia. Qed.

Lemma length_rstrip s : (length (rstrip s) <= length s)%nat.
Proof.
  induction s as [|c s IH]; simpl; [done|].
  destruct (rstrip s); [destruct (isspace c)|]; simpl in *; lia.
Qed.

Lemma length_collapse_runs s : (length (collapse_runs s) <= length s)%nat.
Proof.
  induction s as [|c s IH]; [done|]. simpl collapse_runs.
  destruct (isspace c); [|simpl; lia].
  destruct s as [|d s]; [done|]. destruct (isspace d); simpl in *; lia.
Qed.

(** X6: [clean_text] never makes a text longer. *)
Theorem clean_text_not_longer (x : str) : (length (clean_text x) <= length x)%nat.
Proof.
  rewrite clean_text_split, join_split. unfold trim.
  pose proof (length_lstrip (rstrip (collapse_runs (breaks_to_spaces x)))).
  pose proof (length_rstrip (collapse_runs (breaks_to_spaces x))).
  pose proof (length_collapse_runs (breaks_to_spaces x)).
  assert (length (breaks_to_spaces x) = length x) by apply length_fmap.
  lia.
Qed.

(** ** More on [extract_last_name] *)

(** A name that is not blank ends with a token followed by blanks, and
    the token starts the name or follows a whitespace character. *)
Lemma last_token_exists name :
  blank name = false ->
  exists pre t post,
    name = pre ++ t ++ post /\ token t /\ blank post = true
    /\ (pre = [] \/ exists pre' c, pre = pre' ++ [c] /\ isspace c = true).
Proof.
  induction name as [|c name IH] using rev_ind; [done|]. intros Hname.
  destruct (isspace c) eqn:Hc.
  - assert (blank name = false) as Hname'.
    { unfold blank in *. rewrite forallb_app in Hname. simpl in Hname.
      rewrite Hc in Hname. by destruct (forallb isspace name). }
    destruct (IH Hname') as (pre & t & post & -> & Ht & Hpost & Hpre).
    exists pre, t, (post ++ [c]). rewrite <- !app_assoc. split; [done|].
    split; [done|]. split; [|done].
    unfold blank in *. rewrite forallb_app, Hpost. simpl. by rewrite Hc.
  - assert (Hsnoc : forall s : list N, s = [] \/ exists s' d, s = s' ++ [d]).
    { intros s. destruct s as [|d s' _] using rev_ind; [by left | right; eauto]. }
    assert (Htok : token [c]) by (split; [done | by repeat constructor]).
    destruct (blank name) eqn:Hblank.
    + exists name, [c], []. split; [done|]. split; [done|]. split; [done|].
      destruct (Hsnoc name) as [->|(name' & d & ->)]; [by left|].
      right. exists name', d. split; [done|].
      unfold blank in Hblank. rewrite forallb_app in Hblank. simpl in Hblank.
      apply andb_prop in Hblank as [_ Hd]. by destruct (isspace d).
    + destruct (IH eq_refl) as (pre & t & post & -> & [Hne Hws] & Hpost & Hpre).
      destruct (Hsnoc post) as [->|(post' & p & ->)].
      * exists pre, (t ++ [c]), []. rewrite !app_nil_r, <- !app_assoc.
        split; [done|]. split; [|done].
        split; [by destruct t|]. apply Forall_app. split; [done | by repeat constructor].
      * unfold blank in Hpost. rewrite forallb_app in Hpost.
        simpl in Hpost. apply andb_prop in Hpost as [_ Hp].
        exists (pre ++ t ++ post' ++ [p]), [c], []. rewrite <- !app_assoc.
        split; [done|]. split; [done|]. split; [done|].
        right. exists (pre ++ t ++ post'), p.
        rewrite <- !app_assoc. split; [done|]. by destruct (isspace p).
Qed.

Lemma surname_blank name : blank name = true -> surname name = name.
Proof.
  intros Hb. unfold surname. apply split_nil_blank in Hb. by rewrite Hb.
Qed.

Lemma surname_of_token t : token t -> surname t = t.
Proof.
  intros Ht. rewrite <- (app_nil_r t) at 1.
  by apply (surname_last_token [] t []); [| |left].
Qed.

(** X7: [extract_last_name] returns a blank name unchanged and otherwise
    the last run of characters without whitespace: a piece of the name
    that only whitespace follows and that starts the name or comes right
    after a whitespace character. *)
Theorem extract_last_name_last_run (name : str) :
  (blank name = true /\ extract_last_name name = name)
  \/ (blank name = false
      /\ exists pre post,
           name = pre ++ extract_last_name name ++ post
           /\ token (extract_last_name name)
           /\ blank post = true
           /\ (pre = [] \/ exists pre' c, pre = pre' ++ [c] /\ isspace c = true)).
Proof.
  rewrite extract_last_name_surname. destruct (blank name) eqn:Hb.
  - left. split; [done | by apply surname_blank].
  - right. split; [done|].
    destruct (last_token_exists name Hb) as (pre & t & post & -> & Ht & Hpost & Hpre).
    rewrite (surname_last_token pre t post) by done. by exists pre, post.
Qed.

(** X8: applying [extract_last_name] twice is the same as applying it
    once. *)
Theorem extract_last_name_idempotent (name : str) :
  extract_last_name (extract_last_name name) = extract_last_name name.
Proof.
  rewrite !extract_last_name_surname. destruct (blank name) eqn:Hb.
  - by rewrite (surname_blank name Hb), surname_blank.
  - apply surname_of_token. by apply surname_token.
Qed.

(** ** More on [format_authors] *)

Lemma filter_nonblank_nil names :
  List.filter (fun name => negb (blank name)) names = []
  <-> Forall (fun name => blank name = true) names.
Proof.
  induction names as [|a names IH]; simpl; [done|].
  destruct (blank a) eqn:Ha; simpl.
  - rewrite IH. split; [by constructor | by inversion 1].
  - split; [done|]. inversion 1; congruence.
Qed.

(** X9: [format_authors] answers the empty string exactly when every
    entry of the list is blank (in particular for the empty list). *)
Theorem format_authors_empty_iff (names : list str) :
  format_authors names = [] <-> Forall (fun name => blank name = true) names.
Proof.
  rewrite format_authors_summary, <- filter_nonblank_nil. unfold authors_summary.
  pose proof (surnames_tokens names) as Htok.
  destruct (List.filter _ names) as [|a l]; [done|]. simpl in *.
  apply Forall_cons in Htok as [[Hne _] _].
  split; [|done]. destruct (surname a); [done|]. by destruct l as [|? [|? ?]].
Qed.

Lemma authors_summary_skip_blank before b after :
  blank b = true ->
  authors_summary (before ++ b :: after) = authors_summary (before ++ after).
Proof.
  intros Hb. unfold authors_summary.
  rewrite !List.filter_app. simpl. by rewrite Hb.
Qed.

(** X10: a blank entry anywhere in the list does not change what
    [format_authors] answers. *)
Theorem format_authors_skips_blank (before after : list str) (b : str) :
  blank b = true ->
  format_authors (before ++ b :: after) = format_authors (before ++ after).
Proof. rewrite !format_authors_summary. apply authors_summary_skip_blank. Qed.

Lemma blank_clean_text a : blank (clean_text a) = blank a.
Proof.
  pose proof (split_nil_blank (clean_text a)) as H1.
  pose proof (split_nil_blank a) as H2. rewrite split_clean_text in H1.
  destruct (blank (clean_text a)), (blank a); try done.
  - symmetry. apply H2, H1. done.
  - apply H1, H2. done.
Qed.

Lemma surname_clean_text a : blank a = false -> surname (clean_text a) = surname a.
Proof.
  intros Ha. unfold surname. rewrite split_clean_text.
  destruct (last (split a)) eqn:Hl; [done|].
  apply last_None, split_nil_blank in Hl. congruence.
Qed.

Lemma surnames_clean_text names :
  surname <$> List.filter (fun name => negb (blank name)) (clean_text <$> names)
  = surname <$> List.filter (fun name => negb (blank name)) names.
Proof.
  induction names as [|a names IH]; [done|].
  rewrite fmap_cons. cbn [List.filter]. rewrite blank_clean_text.
  destruct (blank a) eqn:Ha; cbn [negb]; [exact IH|].
  by rewrite !fmap_cons, IH, surname_clean_text.
Qed.

Lemma format_authors_clean names :
  format_authors (clean_text <$> names) = format_authors names.
Proof.
  rewrite !format_authors_summary. unfold authors_summary.
  by rewrite surnames_clean_text.
Qed.

(** X11: cleaning the names before formatting them changes nothing:
    [format_authors] gives the same answer on the cleaned names. *)
Theorem format_authors_of_cleaned_names (names : list str) :
  format_authors (clean_text <$> names) = format_authors names.
Proof. apply format_authors_clean. Qed.

Lemma filter_nonblank_truthy (names : list (list N)) :
  List.filter (fun name => negb (blank name)) (List.filter truthy names)
  = List.filter (fun name => negb (blank name)) names.
Proof.
  induction names as [|a names IH]; [done|]. cbn [List.filter].
  destruct a as [|c a]; [exact IH|]. cbn [truthy List.filter].
  destruct (negb (blank (c :: a))); by rewrite IH.
Qed.

Lemma format_authors_filter_truthy (names : list (list N)) :
  format_authors (List.filter truthy names) = format_authors names.
Proof.
  rewrite !format_authors_summary. unfold authors_summary.
  by rewrite filter_nonblank_truthy.
Qed.

(** ** More on [parse_article] *)

Section ArticleMore.
Context `{UnicodeDb} `{Soup node}.

Local Abbreviation run table d :=
  (fold_left (fun d (row : list N * list N) => store_field d row.1 row.2) table d).

(** The loop over the author header cells collects the cleaned, non-empty
    texts of their value cells. *)
Lemma collect_authors author_elements : forall authors,
  fold_left collect_author author_elements authors
  = authors
    ++ List.filter truthy
         (clean_text
            <$> omap (fun author_th => get_text <$> find_next_sibling author_th (lit "td"))
                  author_elements).
Proof.
  induction author_elements as [|th ths IH]; intros authors.
  - by rewrite app_nil_r.
  - rewrite omap_unfold. cbn [fold_left]. rewrite IH. unfold collect_author.
    destruct (find_next_sibling th (lit "td")) as [td|]; cbn [fmap option_fmap option_map]; [|done].
    rewrite fmap_cons. cbn [List.filter].
    destruct (truthy (clean_text (get_text td))); [|done].
    by rewrite <- app_assoc.
Qed.

Lemma parse_article_authors article_li :
  parse_article article_li !! "author(s)"
  = Some (match find article_li (lit "table") with
          | Some table => format_authors (author_texts table)
          | None => []
          end).
Proof.
  unfold parse_article.
  destruct (find article_li (lit "table")) as [table|].
  - rewrite scan_rows_table, run_other, lookup_insert_eq by done.
    rewrite (collect_authors _ []). cbn [app]. unfold author_texts.
    by rewrite format_authors_filter_truthy, format_authors_clean.
  - by destruct (find article_li (lit "h2")).
Qed.

(** X12: the title field is the cleaned text of the entry's first [h2],
    or the empty string when it has none; no row of the table can change
    it, whatever its label. *)
Theorem title_is_cleaned_heading (article_li : node) :
  parse_article article_li !! "title"
  = Some (match find article_li (lit "h2") with
          | Some title_element => clean_text (get_text title_element)
          | None => []
          end).
Proof. apply parse_article_title. Qed.

(** X13: the author(s) field is [format_authors] of the texts of the
    value cells that follow the table's author header cells, in document
    order (cleaning them and dropping the empty ones first makes no
    difference), and the empty string when the entry has no table. *)
Theorem authors_from_author_cells (article_li : node) :
  parse_article article_li !! "author(s)"
  = Some (match find article_li (lit "table") with
          | Some table => format_authors (author_texts table)
          | None => []
          end).
Proof. apply parse_article_authors. Qed.

(** X14: for an entry without a table, every field but the title is the
    empty string. *)
Theorem no_table_only_title (article_li : node) :
  find article_li (lit "table") = None ->
  parse_article article_li !! "author(s)" = Some []
  /\ parse_article article_li !! "year" = Some []
  /\ parse_article article_li !! "journal" = Some []
  /\ parse_article article_li !! "abstract" = Some [].
Proof.
  intros Htable. unfold parse_article. rewrite Htable.
  by destruct (find article_li (lit "h2")).
Qed.

End ArticleMore.

Lemma no_table_only_title_sample :
  @find _ Html.soup Sample.broken_item (lit "table") = None
  /\ @parse_article Sample.db _ Html.soup Sample.broken_item !! "author(s)" = Some []
  /\ @parse_article Sample.db _ Html.soup Sample.broken_item !! "year" = Some []
  /\ @parse_article Sample.db _ Html.soup Sample.broken_item !! "journal" = Some []
  /\ @parse_article Sample.db _ Html.soup Sample.broken_item !! "abstract" = Some [].
Proof.
  split; [reflexivity|].
  apply (@no_table_only_title Sample.db _ Html.soup Sample.broken_item).
  reflexivity.
Defined.

Lemma format_authors_skips_blank_sample :
  blank (lit "  ") = true
  /\ format_authors ([lit "Jane Doe"] ++ lit "  " :: [lit "John Q Smith"])
     = format_authors ([lit "Jane Doe"] ++ [lit "John Q Smith"]).
Proof.
  split; [reflexivity|].
  apply (format_authors_skips_blank [lit "Jane Doe"] [lit "John Q Smith"] (lit "  ")).
  reflexivity.
Defined.

(** ** More on the loop of [parse_zotero_html_report] *)

Section LoopMore.
Context {node : Type}.
Variable extract : node -> result (gmap string str).

Lemma parse_step_line i li st :
  (parse_step extract i li st).2 = st.2 ++ [entry_line extract i li].
Proof.
  destruct st as [records out]. unfold parse_step, entry_line.
  destruct (extract li) as [d|e]; [destruct (truthy (d !!! "title"))|]; done.
Qed.

Lemma parse_loop_lines items : forall i st,
  (parse_loop extract i items st).2
  = st.2 ++ imap (fun j li => entry_line extract (i + j) li) items.
Proof.
  induction items as [|li items IH]; intros i st.
  - by rewrite app_nil_r.
  - cbn [parse_loop]. rewrite IH, parse_step_line, imap_cons, <- app_assoc.
    cbn [app]. replace (i + 0)%nat with i by lia. do 2 f_equal.
    apply imap_ext. intros j x _. simpl. f_equal. lia.
Qed.

Lemma parse_items_lines items :
  (parse_items extract items).2
  = Found (length items) :: imap (entry_line extract) items.
Proof. unfold parse_items. by rewrite parse_loop_lines. Qed.




(** X17: entries are extracted independently of each other: the records
    of a list of entries are those of any first part followed by those of
    the rest. *)
Theorem records_of_consecutive_entries (first_items rest_items : list node) :
  (parse_items extract (first_items ++ rest_items)).1
  = (parse_items extract first_items).1 ++ (parse_items extract rest_items).1.
Proof. by rewrite !parse_items_records, omap_app. Qed.

End LoopMore.

Section ReportMore.
Context `{UnicodeDb} `{Soup node}.

(** X18: a skip notice carries the position, counted from 1, of an entry
    in the document whose title is empty, and every such entry gets
    one. *)
Theorem skip_notice_positions (soup : node) (number : nat) :
  Skipped number ∈ (parse_zotero_html_report soup).2
  <-> exists i article_li,
        number = (i + 1)%nat
        /\ find_all soup (lit "li") (Some (lit "item")) !! i = Some article_li
        /\ parse_article article_li !! "title" = Some [].
Proof.
  unfold parse_zotero_html_report. rewrite parse_items_lines.
  rewrite elem_of_cons, elem_of_lookup_imap.
  assert (Hline : forall i li,
            Skipped number
            = entry_line (fun article_li => Return (parse_article article_li)) i li
            <-> number = (i + 1)%nat /\ parse_article li !! "title" = Some []).
  { intros i li. unfold entry_line.
    rewrite (lookup_total_correct _ _ _ (parse_article_title li)), parse_article_title.
    destruct (match find li (lit "h2") with Some _ => _ | None => _ end) as [|c t];
      simpl.
    - split; [by intros [= ->] | by intros [-> _]].
    - split; [done | by intros [_ [=]]]. }
  split.
  - intros [Hfound|(i & li & Hi & Hli)]; [done|].
    apply Hline in Hi as [-> Ht]. by exists i, li.
  - intros (i & li & -> & Hli & Ht). right. exists i, li.
    split; [by apply Hline | done].
Qed.

End ReportMore.

(** ** [main] *)

Section MainFacts.
Context `{UnicodeDb} `{Soup node} `{Platform world node}.

Local Abbreviation html_path := (lit "Zotero Report.html").
Local Abbreviation output_path := (lit "zotero_literature.json").

(** The records [main] obtains from a parsed page. *)
Local Abbreviation articles_of soup :=
  (List.filter (fun d : gmap string (list N) => truthy (d !!! "title"))
     (parse_article <$> find_all soup (lit "li") (Some (lit "item")))).

Lemma parse_file_value (w : world) html soup :
  read_file w html_path = Value html ->
  BeautifulSoup html = Value soup ->
  parse_zotero_html_report_file html_path w
  = (Value (articles_of soup),
     Processing html_path :: (Report <$> (parse_zotero_html_report soup).2)).
Proof.
  intros Hread Hsoup. unfold parse_zotero_html_report_file.
  rewrite Hread, Hsoup.
  pose proof (report_records soup) as Hrecords.
  destruct (parse_zotero_html_report soup) as [records printed]. simpl in *.
  by rewrite Hrecords.
Qed.

(** X19: when the report cannot be read or cannot be parsed, [main]
    writes nothing: the files are as before, and after the line that
    announces the processing it prints only the notice of the [except]
    clause that takes the exception. *)
Theorem main_without_report_writes_nothing (w : world) (err : error) :
  read_file w html_path = Raised err
  \/ (exists html, read_file w html_path = Value html
                   /\ BeautifulSoup (node := node) html = Raised err) ->
  main w = (w, Processing html_path :: report_error html_path err).
Proof.
  unfold main, parse_zotero_html_report_file.
  intros [Hread | (html & Hread & Hsoup)]; rewrite Hread; [done|].
  by rewrite Hsoup.
Qed.

(** X20: when the page is read and parsed, what [main] hands over to be
    written, under the name zotero_literature.json, is the list of the
    records of the entries that have a title, in document order; the
    files afterwards are those this write leaves. *)
Theorem main_dumps_titled_records (w : world) (html : str) (soup : node) :
  read_file w html_path = Value html ->
  BeautifulSoup html = Value soup ->
  (main w).1 = (dump_json w output_path (articles_of soup)).1.
Proof.
  intros Hread Hsoup. unfold main.
  rewrite (parse_file_value w html soup Hread Hsoup).
  by destruct (dump_json w output_path (articles_of soup)) as [w' [err|]].
Qed.



(** X22: when the write itself raises [FileNotFoundError], [main] prints
    the notice that the input file could not be found, although it was
    read, and no line that reports success. *)
Theorem main_blames_input_for_failed_write
    (w w' : world) (html : str) (soup : node) (e : exn) :
  read_file w html_path = Value html ->
  BeautifulSoup html = Value soup ->
  dump_json w output_path (articles_of soup) = (w', Some (FileNotFoundError e)) ->
  main w
  = (w', Processing html_path
           :: (Report <$> (parse_zotero_html_report soup).2)
           ++ [CouldNotFind html_path; MakeSure]).
Proof.
  intros Hread Hsoup Hdump. unfold main.
  by rewrite (parse_file_value w html soup Hread Hsoup), Hdump.
Qed.

End MainFacts.

Lemma main_without_report_writes_nothing_sample :
  SampleRun.read SampleRun.empty_disk (lit "Zotero Report.html")
  = Raised (FileNotFoundError (Exception (lit "No such file or directory")))
  /\ sample_main SampleRun.empty_disk
     = (SampleRun.empty_disk,
        [Processing (lit "Zotero Report.html");
         CouldNotFind (lit "Zotero Report.html"); MakeSure]).
Proof.
  split; [reflexivity|].
  apply (@main_without_report_writes_nothing Sample.db Html.node Html.soup _
           SampleRun.platform SampleRun.empty_disk
           (FileNotFoundError (Exception (lit "No such file or directory")))).
  left. reflexivity.
Defined.

Lemma main_dumps_titled_records_sample :
  SampleRun.read SampleRun.disk (lit "Zotero Report.html") = Value SampleRun.page
  /\ SampleRun.parse_page SampleRun.page = Value Sample.report
  /\ (sample_main SampleRun.disk).1
     = (SampleRun.dump SampleRun.disk (lit "zotero_literature.json")
          (List.filter (fun d : gmap string (list N) => truthy (d !!! "title"))
             (@parse_article Sample.db _ Html.soup
                <$> @find_all _ Html.soup Sample.report (lit "li") (Some (lit "item"))))).1.
Proof.
  split; [reflexivity|]. split; [reflexivity|].
  apply (@main_dumps_titled_records Sample.db Html.node Html.soup _
           SampleRun.platform SampleRun.disk SampleRun.page Sample.report);
    reflexivity.
Defined.


Lemma main_blames_input_for_failed_write_sample :
  sample_main_no_directory SampleRun.disk
  = (SampleRun.disk,
     [Processing (lit "Zotero Report.html");
      Report (Found 2); Report (Parsed (lit "Study A")); Report (Skipped 2);
      CouldNotFind (lit "Zotero Report.html"); MakeSure]).
Proof.
  apply (@main_blames_input_for_failed_write Sample.db Html.node Html.soup _
           SampleRun.no_directory SampleRun.disk SampleRun.disk
           SampleRun.page Sample.report (Exception (lit "No such file or directory")));
    reflexivity.
Defined.

(** ** More on [extract_year_from_date] *)

Section YearMore.
Context `{UnicodeDb}.
Hypothesis space_not_alnum : forall c, isspace c = true -> db_isalnum c = false.
Hypothesis decimal_not_space : forall c, db_isdecimal c = true -> isspace c = false.

Lemma extract_year_from s : extract_year_from_date s = year_from None s.
Proof. unfold extract_year_from_date, year_from, Re.search. by destruct s. Qed.

Lemma year_from_unfold prev s :
  year_from prev s
  = match year_here prev s with
    | Some rest => take (length s - length rest) s
    | None => match s with [] => [] | c :: s' => year_from (Some c) s' end
    end.
Proof.
  unfold year_from. destruct s as [|c s]; cbn [Re.search_from];
    rewrite match_here_year; destruct (year_here _ _); try done.
  by destruct (Re.search_from year_pattern (Some c) s).
Qed.

Lemma isword_space c : isspace c = true -> Re.isword c = false.
Proof.
  intros Hc. unfold Re.isword, Re.isalnum.
  destruct (N.ltb_spec c 128) as [Hlt|Hge].
  - apply not_true_iff_false. intros Hw. unfold isspace in Hc.
    repeat match goal with
           | Hb : (_ || _) = true |- _ => apply orb_prop in Hb as [Hb|Hb]
           | Hb : (_ && _) = true |- _ => apply andb_prop in Hb as [? ?]
           | Hb : (_ <=? _) = true |- _ => apply N.leb_le in Hb
           | Hb : (_ =? _) = true |- _ => apply N.eqb_eq in Hb
           end; lia.
  - rewrite (space_not_alnum c Hc). simpl. apply N.eqb_neq. lia.
Qed.

Lemma isdecimal_space c : isspace c = true -> Re.isdecimal c = false.
Proof.
  intros Hc. destruct (Re.isdecimal c) eqn:Hd; [|done].
  apply (isdecimal_not_space decimal_not_space) in Hd. congruence.
Qed.

Lemma year_here_space prev c s : isspace c = true -> year_here prev (c :: s) = None.
Proof.
  intros Hc. destruct s as [|c2 [|d3 [|d4 rest]]]; try done.
  assert ((c =? 49) = false) as H49 by (apply N.eqb_neq; by intros ->).
  assert ((c =? 50) = false) as H50 by (apply N.eqb_neq; by intros ->).
  unfold year_here. rewrite H49, H50. simpl. by rewrite andb_false_r.
Qed.

Lemma year_here_prev p1 p2 s :
  Re.word_at p1 = Re.word_at p2 -> year_here p1 s = year_here p2 s.
Proof.
  intros Hw. destruct s as [|c1 [|c2 [|d3 [|d4 rest]]]]; try done.
  unfold year_here, Re.at_boundary. by rewrite Hw.
Qed.

(** A text that is empty or starts with whitespace. *)
Local Abbreviation breaks_word rest :=
  (rest = [] \/ exists c r, rest = c :: r /\ isspace c = true).

Lemma year_from_after_space c s :
  isspace c = true -> year_from (Some c) s = year_from None s.
Proof.
  intros Hc. rewrite (year_from_unfold (Some c)), (year_from_unfold None).
  rewrite (year_here_prev (Some c) None); [done|].
  simpl. by apply isword_space.
Qed.

Lemma year_from_breaks_word prev (rest : list N) :
  breaks_word rest -> year_from prev rest = year_from None rest.
Proof.
  intros [->|(c & r & -> & Hc)];
    rewrite (year_from_unfold prev), (year_from_unfold None); [done|].
  by rewrite !year_here_space.
Qed.

Lemma boundary_before_break e (u rest : list N) :
  breaks_word rest ->
  Re.at_boundary (Some e) (u ++ rest) = Re.at_boundary (Some e) u.
Proof.
  intros Hrest. destruct u as [|x u]; [|done]. simpl.
  destruct Hrest as [->|(c & r & -> & Hc)]; [done|].
  unfold Re.at_boundary. simpl. by rewrite (isword_space c Hc).
Qed.

(** Inside a word the pattern matches as it does on the word alone. *)
Lemma year_here_in_word prev (u rest : list N) :
  Forall (fun c => isspace c = false) u -> breaks_word rest ->
  year_here prev (u ++ rest) = (fun r => r ++ rest) <$> year_here prev u.
Proof.
  intros Hu Hrest.
  destruct u as [|a [|b [|d [|e u']]]].
  - destruct Hrest as [->|(c & r & -> & Hc)]; [done|]. by apply year_here_space.
  - destruct Hrest as [->|(c & r & -> & Hc)]; [done|].
    destruct r as [|x [|y r]]; try done. cbn [app]. unfold year_here.
    assert ((c =? 57) = false) as -> by (apply N.eqb_neq; by intros ->).
    assert ((c =? 48) = false) as -> by (apply N.eqb_neq; by intros ->).
    by rewrite !andb_false_r.
  - destruct Hrest as [->|(c & r & -> & Hc)]; [done|].
    destruct r as [|x r]; try done. cbn [app]. unfold year_here.
    rewrite (isdecimal_space c Hc). by rewrite !andb_false_r.
  - destruct Hrest as [->|(c & r & -> & Hc)]; [done|].
    cbn [app]. unfold year_here.
    rewrite (isdecimal_space c Hc). by rewrite !andb_false_r.
  - cbn [app]. unfold year_here.
    rewrite (boundary_before_break e u' rest Hrest).
    assert (Re.at_boundary prev (a :: b :: d :: e :: u' ++ rest)
            = Re.at_boundary prev (a :: b :: d :: e :: u')) as -> by done.
    by destruct (_ && _).
Qed.

Lemma year_here_take prev (s rest : list N) :
  year_here prev s = Some rest ->
  exists y, s = y ++ rest /\ length y = 4%nat.
Proof.
  destruct s as [|c1 [|c2 [|d3 [|d4 rest']]]]; try done.
  unfold year_here. destruct (_ && _); [|done]. intros [= ->].
  by exists [c1; c2; d3; d4].
Qed.

Lemma year_from_in_word (u : list N) : forall prev (rest : list N),
  Forall (fun c => isspace c = false) u -> breaks_word rest ->
  year_from prev (u ++ rest)
  = if truthy (year_from prev u) then year_from prev u else year_from None rest.
Proof.
  induction u as [|a u IH]; intros prev rest Hu Hrest.
  - simpl. rewrite (year_from_unfold prev []). simpl.
    by apply year_from_breaks_word.
  - rewrite (year_from_unfold prev ((a :: u) ++ rest)), (year_from_unfold prev (a :: u)).
    rewrite year_here_in_word by done.
    destruct (year_here prev (a :: u)) as [r|] eqn:Hhere;
      cbn [fmap option_fmap option_map].
    + apply year_here_take in Hhere as (y & Hy & Hlen).
      assert (Hleft : take (length ((a :: u) ++ rest) - length (r ++ rest))
                        ((a :: u) ++ rest) = y).
      { rewrite Hy, <- app_assoc, !length_app.
        replace (length y + (length r + length rest) - (length r + length rest))%nat
          with (length y) by lia.
        apply take_app_length. }
      assert (Hright : take (length (a :: u) - length r) (a :: u) = y).
      { rewrite Hy, length_app.
        replace (length y + length r - length r)%nat with (length y) by lia.
        apply take_app_length. }
      rewrite Hleft, Hright. by destruct y.
    + apply Forall_cons in Hu as [_ Hu]. by apply IH.
Qed.

Lemma year_from_words s : forall cur,
  Forall (fun c => isspace c = false) cur ->
  year_from None (cur ++ s) = first_nonempty (year_from None <$> split_go cur s).
Proof.
  induction s as [|c s IH]; intros cur Hcur.
  - rewrite app_nil_r. simpl. destruct cur as [|d cur]; [done|]. simpl.
    by destruct (year_from None (d :: cur)).
  - destruct (isspace c) eqn:Hc.
    + rewrite split_go_space by done.
      rewrite year_from_in_word by (done || right; eauto).
      assert (year_from None (c :: s)
              = first_nonempty (year_from None <$> split_go [] s)) as ->.
      { rewrite year_from_unfold, year_here_space by done.
        rewrite year_from_after_space by done. by apply (IH []). }
      destruct cur as [|d cur]; [done|]. done.
    + rewrite split_go_char by done.
      replace (cur ++ c :: s) with ((cur ++ [c]) ++ s) by by rewrite <- app_assoc.
      apply IH. apply Forall_app. split; [done | by repeat constructor].
Qed.

Lemma extract_year_words s :
  extract_year_from_date s = first_nonempty (extract_year_from_date <$> split s).
Proof.
  rewrite extract_year_from.
  pose proof (year_from_words s [] (Forall_nil_2 _)) as Hwords.
  change ([] ++ s) with s in Hwords. rewrite Hwords. unfold split.
  f_equal. apply list_fmap_ext. intros _ t _. by rewrite extract_year_from.
Qed.

(** X23: the year found in a text is the year of the first of its
    whitespace-delimited words that holds one: a match never reaches
    across whitespace, and whitespace next to it counts as a boundary. *)
Theorem extract_year_word_by_word (date_text : str) :
  extract_year_from_date date_text
  = first_nonempty (extract_year_from_date <$> split date_text).
Proof. apply extract_year_words. Qed.

(** X24: cleaning a text does not change the year found in it, so the
    year [parse_article] takes from the cleaned value of a Date row is the
    year of the row's text as it stands in the document. *)
Theorem extract_year_of_cleaned_text (date_text : str) :
  extract_year_from_date (clean_text date_text) = extract_year_from_date date_text.
Proof.
  rewrite (extract_year_words (clean_text date_text)), (extract_year_words date_text).
  by rewrite split_clean_text.
Qed.

End YearMore.

Section YearIdempotent.
Context `{UnicodeDb}.
Hypothesis decimal_alnum : forall c, db_isdecimal c = true -> db_isalnum c = true.

Lemma isdecimal_isword c : Re.isdecimal c = true -> Re.isword c = true.
Proof.
  unfold Re.isdecimal, Re.isword, Re.isalnum. destruct (c <? 128).
  - by intros ->.
  - intros Hc. by rewrite (decimal_alnum c Hc).
Qed.

Lemma year_here_whole y : four_digit_year y -> year_here None y = Some [].
Proof.
  intros (d3 & d4 & Hy & Hd3 & Hd4).
  pose proof (isdecimal_isword d4 Hd4) as Hw.
  destruct Hy as [-> | ->]; unfold year_here, Re.at_boundary; simpl;
    by rewrite Hd3, Hd4, Hw.
Qed.

(** X25: a year found by [extract_year_from_date] is itself a text in
    which the function finds that year: extracting twice gives what
    extracting once gives. *)
Theorem extract_year_idempotent (date_text : str) :
  extract_year_from_date (extract_year_from_date date_text)
  = extract_year_from_date date_text.
Proof.
  destruct (extract_year_first_or_none date_text)
    as [(pre & post & (_ & Hy & _) & _) | [_ ->]]; [|done].
  set (y := extract_year_from_date date_text) in *.
  pose proof (four_digit_year_length y Hy) as Hlen.
  unfold extract_year_from_date, Re.search. destruct y as [|c y]; [done|].
  cbn [negb truthy Re.search_from]. rewrite match_here_year, year_here_whole by done.
  cbn [Re.group]. by rewrite Nat.sub_0_r, take_ge.
Qed.

End YearIdempotent.

Lemma sample_space_not_alnum c :
  isspace c = true -> @db_isalnum Sample.db c = false.
Proof.
  intros Hc. apply not_true_iff_false. simpl. intros Hw. unfold isspace in Hc.
  repeat match goal with
         | Hb : (_ || _) = true |- _ => apply orb_prop in Hb as [Hb|Hb]
         | Hb : (_ && _) = true |- _ => apply andb_prop in Hb as [? ?]
         | Hb : negb _ = true |- _ => apply negb_true_iff in Hb
         | Hb : (_ <=? _) = true |- _ => apply N.leb_le in Hb
         | Hb : (_ =? _) = true |- _ => apply N.eqb_eq in Hb
         | Hb : (_ =? _) = false |- _ => apply N.eqb_neq in Hb
         end; lia.
Qed.

Lemma sample_decimal_alnum c :
  @db_isdecimal Sample.db c = true -> @db_isalnum Sample.db c = true.
Proof. simpl. intros ->. apply orb_true_r. Qed.

Lemma extract_year_word_by_word_sample :
  @extract_year_from_date Sample.db (lit "May" ++ [LF; 9] ++ lit "v2019 2020")
  = first_nonempty
      (@extract_year_from_date Sample.db
         <$> split (lit "May" ++ [LF; 9] ++ lit "v2019 2020")).
Proof.
  apply (@extract_year_word_by_word Sample.db
           sample_space_not_alnum sample_decimal_not_space).
Defined.

Lemma extract_year_of_cleaned_text_sample :
  @extract_year_from_date Sample.db
     (clean_text ([160] ++ lit "May" ++ [LF; 9] ++ lit "2019" ++ [CR]))
  = @extract_year_from_date Sample.db
      ([160] ++ lit "May" ++ [LF; 9] ++ lit "2019" ++ [CR]).
Proof.
  apply (@extract_year_of_cleaned_text Sample.db
           sample_space_not_alnum sample_decimal_not_space).
Defined.

Lemma extract_year_idempotent_sample :
  @extract_year_from_date Sample.db
     (@extract_year_from_date Sample.db (lit "in 19" ++ [1636; 1637] ++ lit "."))
  = @extract_year_from_date Sample.db (lit "in 19" ++ [1636; 1637] ++ lit ".").
Proof. apply (@extract_year_idempotent Sample.db sample_decimal_alnum). Defined.
